(** * Weekly README stamp worker: a shallow embedding of [src/index.js]

    The worker computes a "this week" label, lists the repositories of an
    account and rewrites the last content line of every README with that
    label.  This file embeds the JavaScript source function by function and
    states the properties of the specification over that embedding.

    Conventions.
    - A JavaScript string is the list of its UTF-16 code units, each a [Z].
    - A JavaScript number that the program only uses as an integer is a [Z].
    - An array is a [list]; [a !! i] reads an index and [<[i:=x]> a] writes
      one that is in range.
    - A function that can throw returns a [Completion]. *)

From stdpp Require Import base list strings.
From Stdlib Require Import ZArith Lia.
From Stdlib Require DecimalString.

(** ** JavaScript strings *)

Module JS.

(** A string is its sequence of UTF-16 code units. *)
Abbreviation jsstring := (list Z).

(** *** String literals

    Rocq string literals are byte strings; the source file is UTF-8.  [lit]
    turns the UTF-8 bytes of a literal into UTF-16 code units, so that the
    literals of [index.js] can be written as they are in the source. *)

Definition bytes_of (s : string) : list Z :=
  (fun a => Z.of_N (Ascii.N_of_ascii a)) <$> String.list_ascii_of_string s.

Fixpoint utf16_of_utf8 (bs : list Z) : jsstring :=
  match bs with
  | [] => []
  | b0 :: r =>
    if (b0 <? 128)%Z then b0 :: utf16_of_utf8 r
    else if (b0 <? 224)%Z then
      match r with
      | b1 :: r1 => ((b0 - 192) * 64 + (b1 - 128))%Z :: utf16_of_utf8 r1
      | _ => []
      end
    else if (b0 <? 240)%Z then
      match r with
      | b1 :: b2 :: r2 =>
        ((b0 - 224) * 4096 + (b1 - 128) * 64 + (b2 - 128))%Z :: utf16_of_utf8 r2
      | _ => []
      end
    else
      match r with
      | b1 :: b2 :: b3 :: r3 =>
        let cp := ((b0 - 240) * 262144 + (b1 - 128) * 4096
                   + (b2 - 128) * 64 + (b3 - 128))%Z in
        let v := (cp - 65536)%Z in
        (55296 + v / 1024)%Z :: (56320 + v mod 1024)%Z :: utf16_of_utf8 r3
      | _ => []
      end
  end.

(** The escapes of JavaScript literals used by the source: a backslash
    followed by [n] is a line feed, by [r] a carriage return, by anything
    else that character itself. *)
Fixpoint unescape (bs : list Z) : list Z :=
  match bs with
  | [] => []
  | b :: r =>
    if (b =? 92)%Z then
      match r with
      | e :: r' =>
        (if (e =? 110)%Z then 10%Z else if (e =? 114)%Z then 13%Z else e)
          :: unescape r'
      | [] => [b]
      end
    else b :: unescape r
  end.

Definition lit (s : string) : jsstring :=
  utf16_of_utf8 (unescape (bytes_of s)).
Arguments lit s%_string.

(** Line feed and carriage return. *)
Definition LF : Z := 10.
Definition CR : Z := 13.

(** *** [String.prototype.replace(/\r\n/g, "\n")]

    A left-to-right scan; every occurrence of CR LF becomes LF and the scan
    resumes after the occurrence. *)
Fixpoint replaceCRLF (s : jsstring) : jsstring :=
  match s with
  | [] => []
  | c :: r =>
    match r with
    | c' :: r' =>
      if (c =? CR)%Z && (c' =? LF)%Z then LF :: replaceCRLF r'
      else c :: replaceCRLF r
    | [] => [c]
    end
  end.

(** *** [String.prototype.replace(/\n/g, "")] *)
Fixpoint removeLF (s : jsstring) : jsstring :=
  match s with
  | [] => []
  | c :: r => if (c =? LF)%Z then removeLF r else c :: removeLF r
  end.

(** *** [String.prototype.split("\n")]

    The result is never the empty array: the empty string splits into one
    empty string. *)
Fixpoint split (s : jsstring) : list jsstring :=
  match s with
  | [] => [[]]
  | c :: r =>
    if (c =? LF)%Z then [] :: split r
    else match split r with
         | l :: ls => (c :: l) :: ls
         | [] => [[c]]
         end
  end.

(** *** [Array.prototype.join("\n")] *)
Fixpoint join (ls : list jsstring) : jsstring :=
  match ls with
  | [] => []
  | [l] => l
  | l :: ls' => l ++ LF :: join ls'
  end.

(** *** [String.prototype.trim]

    White space and line terminators of ECMA-262 (sections 12.2 and 12.3):
    TAB, VT, FF, SP, NBSP, ZWNBSP, the code points of category Zs, LF, CR, LS
    and PS.  All of them are single code units. *)
Definition isWhiteSpace (c : Z) : bool :=
  (c =? 9)%Z || (c =? 10)%Z || (c =? 11)%Z || (c =? 12)%Z || (c =? 13)%Z
  || (c =? 32)%Z || (c =? 160)%Z || (c =? 5760)%Z
  || ((8192 <=? c)%Z && (c <=? 8202)%Z)
  || (c =? 8232)%Z || (c =? 8233)%Z || (c =? 8239)%Z || (c =? 8287)%Z
  || (c =? 12288)%Z || (c =? 65279)%Z.

Fixpoint trimStart (s : jsstring) : jsstring :=
  match s with
  | [] => []
  | c :: r => if isWhiteSpace c then trimStart r else s
  end.

Definition trimEnd (s : jsstring) : jsstring :=
  reverse (trimStart (reverse s)).

Definition trim (s : jsstring) : jsstring := trimEnd (trimStart s).

(** *** [String.prototype.startsWith] *)
Fixpoint startsWith (s p : jsstring) : bool :=
  match p with
  | [] => true
  | c :: p' =>
    match s with
    | [] => false
    | d :: s' => (d =? c)%Z && startsWith s' p'
    end
  end.

(** [s === ""] *)
Definition isEmpty (s : jsstring) : bool :=
  match s with [] => true | _ => false end.

End JS.

Export JS.

(** ** Module constants *)

Definition GITHUB_API : jsstring := lit "https://api.github.com".

(** The marker token that identifies the line owned by the worker. *)
Definition STAMP_PREFIX : jsstring := lit "本周记录:".

(** ** The marker patcher: [applyStamp] *)

(** [lines[i]] for an index the loop keeps in range. *)
Definition line_at (lines : list jsstring) (i : nat) : jsstring :=
  default [] (lines !! i).

(** The backward scan
    [while (lastIndex >= 0 && lines[lastIndex].trim() === "") lastIndex--].
    The argument [n] is [lastIndex + 1]; the result [None] is the final value
    [-1] and [Some i] the final value [i]. *)
Fixpoint skipBlankTail (lines : list jsstring) (n : nat) : option nat :=
  match n with
  | O => None
  | S i =>
    if isEmpty (trim (line_at lines i)) then skipBlankTail lines i
    else Some i
  end.

(** The array [lines] after the replace-or-push step. *)
Definition stampLines (lines : list jsstring) (stampLine : jsstring)
  : list jsstring :=
  match skipBlankTail lines (length lines) with
  | Some lastIndex =>
    if startsWith (line_at lines lastIndex) STAMP_PREFIX
    then <[lastIndex := stampLine]> lines
    else lines ++ [stampLine]
  | None => lines ++ [stampLine]
  end.

Definition applyStamp (content stampLine : jsstring) : jsstring :=
  let lines := split (replaceCRLF content) in
  if (length lines =? 0)%nat then stampLine ++ [LF]
  else join (stampLines lines stampLine) ++ [LF].


(** ** Dates

    The time values and date functions of ECMA-262, section 21.4.1.  A time
    value is a number of milliseconds since the epoch; the model covers the
    finite time values and leaves out [TimeClip], which only matters within
    a week of the ends of the representable range. *)

Module JSDate.
Local Open Scope Z_scope.

Definition msPerDay : Z := 86400000.

Definition Day (t : Z) : Z := t / msPerDay.
Definition TimeWithinDay (t : Z) : Z := t mod msPerDay.

Definition DaysInYear (y : Z) : Z :=
  if negb (y mod 4 =? 0) then 365
  else if negb (y mod 100 =? 0) then 366
  else if negb (y mod 400 =? 0) then 365
  else 366.

Definition DayFromYear (y : Z) : Z :=
  365 * (y - 1970) + (y - 1969) / 4 - (y - 1901) / 100 + (y - 1601) / 400.

Definition TimeFromYear (y : Z) : Z := msPerDay * DayFromYear y.

(** The year of a day number: the largest [y] with [DayFromYear y <= d].
    The estimate from the mean length of a Gregorian year is off by at most
    one. *)
Definition YearFromDay (d : Z) : Z :=
  let y := 1970 + (400 * d) / 146097 in
  if d <? DayFromYear y then y - 1
  else if DayFromYear (y + 1) <=? d then y + 1
  else y.

Definition YearFromTime (t : Z) : Z := YearFromDay (Day t).

Definition InLeapYear (t : Z) : bool := DaysInYear (YearFromTime t) =? 366.

Definition DayWithinYear (t : Z) : Z := Day t - DayFromYear (YearFromTime t).

(** The day within the year on which month [m] (0 to 11) starts. *)
Definition monthStart (m : Z) (leap : bool) : Z :=
  let l := if leap then 1 else 0 in
  if m <=? 0 then 0
  else if m =? 1 then 31
  else if m =? 2 then 59 + l
  else if m =? 3 then 90 + l
  else if m =? 4 then 120 + l
  else if m =? 5 then 151 + l
  else if m =? 6 then 181 + l
  else if m =? 7 then 212 + l
  else if m =? 8 then 243 + l
  else if m =? 9 then 273 + l
  else if m =? 10 then 304 + l
  else 334 + l.

Definition MonthFromTime (t : Z) : Z :=
  let d := DayWithinYear t in
  let leap := InLeapYear t in
  if d <? monthStart 1 leap then 0
  else if d <? monthStart 2 leap then 1
  else if d <? monthStart 3 leap then 2
  else if d <? monthStart 4 leap then 3
  else if d <? monthStart 5 leap then 4
  else if d <? monthStart 6 leap then 5
  else if d <? monthStart 7 leap then 6
  else if d <? monthStart 8 leap then 7
  else if d <? monthStart 9 leap then 8
  else if d <? monthStart 10 leap then 9
  else if d <? monthStart 11 leap then 10
  else 11.

Definition DateFromTime (t : Z) : Z :=
  DayWithinYear t - monthStart (MonthFromTime t) (InLeapYear t) + 1.

Definition WeekDay (t : Z) : Z := (Day t + 4) mod 7.

(** [MakeDay]: the day number of the first of the month, plus [date - 1]. *)
Definition MakeDay (year month date : Z) : Z :=
  let ym := year + month / 12 in
  let mn := month mod 12 in
  DayFromYear ym + monthStart mn (DaysInYear ym =? 366) + date - 1.

Definition MakeDate (day time : Z) : Z := day * msPerDay + time.

(** [Date.UTC(year, month, date)]; a year from 0 to 99 means 1900 + year. *)
Definition UTC (year month date : Z) : Z :=
  let yr := if (0 <=? year) && (year <=? 99) then 1900 + year else year in
  MakeDate (MakeDay yr month date) 0.

Definition getUTCDay (t : Z) : Z := WeekDay t.
Definition getUTCDate (t : Z) : Z := DateFromTime t.
Definition getUTCMonth (t : Z) : Z := MonthFromTime t.
Definition getUTCFullYear (t : Z) : Z := YearFromTime t.

(** [d.setUTCDate(date)]: the new time value of [d]. *)
Definition setUTCDate (t date : Z) : Z :=
  MakeDate (MakeDay (YearFromTime t) (MonthFromTime t) date) (TimeWithinDay t).

End JSDate.

(** ** Numbers as strings *)

(** [String(n)] and [`${n}`] for an integer [n]. *)
Definition String_of_Z (n : Z) : jsstring :=
  bytes_of (DecimalString.NilZero.string_of_int (Z.to_int n)).

Definition repeatString (fill : jsstring) (n : nat) : jsstring :=
  take n (mjoin (replicate n fill)).

(** [String.prototype.padStart(targetLength, fillString)] *)
Definition padStart (s : jsstring) (targetLength : nat) (fill : jsstring)
  : jsstring :=
  if (targetLength <=? length s)%nat then s
  else if isEmpty fill then s
  else repeatString fill (targetLength - length s) ++ s.

(** ** The week stamp: [getISOWeek] and [calcThisWeekStamp] *)

Record ISOWeek := { iw_isoYear : Z; iw_isoWeek : Z }.

(** [Math.ceil(x / 7)] for an integer [x]. *)
Definition ceilDiv7 (x : Z) : Z := (- ((- x) / 7))%Z.

Definition getISOWeek (date : Z) : ISOWeek :=
  let d := JSDate.UTC (JSDate.getUTCFullYear date) (JSDate.getUTCMonth date)
                      (JSDate.getUTCDate date) in
  let dayNum := if (JSDate.getUTCDay d =? 0)%Z then 7%Z else JSDate.getUTCDay d in
  let d := JSDate.setUTCDate d (JSDate.getUTCDate d + 4 - dayNum)%Z in
  let isoYear := JSDate.getUTCFullYear d in
  let yearStart := JSDate.UTC isoYear 0 1 in
  let week := ceilDiv7 ((d - yearStart) / 86400000 + 1)%Z in
  {| iw_isoYear := isoYear; iw_isoWeek := week |}.

Record StampInfo := {
  sundayStr : jsstring;
  isoYear : Z;
  isoWeek : Z;
  stampText : jsstring
}.

(** [calcThisWeekStamp()]; the argument [now] is the time value that
    [new Date()] reads from the clock. *)
Definition calcThisWeekStamp (now : Z) : StampInfo :=
  let sunday := now in
  let day := JSDate.getUTCDay sunday in
  let diff := ((7 - day) mod 7)%Z in
  let sunday := JSDate.setUTCDate sunday (JSDate.getUTCDate sunday + diff)%Z in
  let year := JSDate.getUTCFullYear sunday in
  let month := padStart (String_of_Z (JSDate.getUTCMonth sunday + 1)%Z) 2 (lit "0") in
  let date := padStart (String_of_Z (JSDate.getUTCDate sunday)) 2 (lit "0") in
  let sundayStr := String_of_Z year ++ lit "-" ++ month ++ lit "-" ++ date in
  let w := getISOWeek sunday in
  let stampText :=
    STAMP_PREFIX ++ lit " " ++ sundayStr ++ lit " · "
    ++ String_of_Z (iw_isoYear w) ++ lit "年第"
    ++ String_of_Z (iw_isoWeek w) ++ lit "周" in
  {| sundayStr := sundayStr; isoYear := iw_isoYear w;
     isoWeek := iw_isoWeek w; stampText := stampText |}.

(** ** Exceptions, completions and the ambient platform *)

(** A thrown value: an error object with its [name] and [message]. *)
Inductive exn := JsError (name message : jsstring).

(** [new Error(message)] *)
Definition Error (message : jsstring) : exn := JsError (lit "Error") message.

(** A [TypeError] raised by the engine; its message is engine specific and
    the program only ever prints it. *)
Definition TypeError : exn :=
  JsError (lit "TypeError") (lit "value is not of the expected shape").

(** [String(err)], that is [Error.prototype.toString]. *)
Definition String_of_exn (e : exn) : jsstring :=
  match e with
  | JsError name msg =>
    if isEmpty name then msg
    else if isEmpty msg then name
    else name ++ lit ": " ++ msg
  end.

(** The outcome of evaluating an expression: a value or a thrown error. *)
Inductive Completion (A : Type) := Normal (a : A) | Throw (e : exn).
Arguments Normal {A} a.
Arguments Throw {A} e.

#[global] Instance Completion_ret : MRet Completion := @Normal.
#[global] Instance Completion_bind : MBind Completion := fun A B f m =>
  match m with
  | Normal a => f a
  | Throw e => Throw e
  end.

(** *** Requests and responses *)

Inductive Method := GET | PUT.

(** The object given to [JSON.stringify] for the body of a write. *)
Record PutBody := {
  pb_message : jsstring;
  pb_content : jsstring;
  pb_sha : jsstring
}.

Record Request := {
  rq_method : Method;
  rq_url : jsstring;
  rq_headers : list (jsstring * jsstring);
  rq_body : option PutBody
}.

(** An item of the repository listing, a repository object of the remote
    interface: [repo.owner.login] and [repo.name]. *)
Record Repo := { owner_login : jsstring; repo_name : jsstring }.

(** The README object: [sha], [path] and [content]. *)
Record ReadmeData := {
  rd_sha : jsstring;
  rd_path : jsstring;
  rd_content : jsstring
}.

(** What [res.json()] can yield: the array of repository objects of a
    listing page, the README object, or a value of another shape.  The
    worker reads from the value the shape it expects; on a value of another
    shape these reads (spreading a value that is not iterable, calling
    [replace] on [undefined]) raise a [TypeError].  A listing with an item
    that is not a repository object is a value of another shape too; for
    it the worker raises the [TypeError] only where it reads
    [repo.owner.login], in the loop of [updateAllRepos], which the model
    does not tell apart from a failure inside the listing.  What is stated
    below on how a run throws holds in both readings. *)
Inductive Json :=
| JRepos (batch : list Repo)
| JReadme (data : ReadmeData)
| JOther.

Record Response := {
  res_status : Z;
  res_text : jsstring;
  res_json : Completion Json
}.

(** [res.ok]: the status is in the range 200 to 299. *)
Definition res_ok (res : Response) : bool :=
  (200 <=? res_status res)%Z && (res_status res <=? 299)%Z.

(** The requests sent so far, oldest first. *)
Abbreviation History := (list Request).

(** The globals of the runtime that the worker calls.  [remote] is the
    network: given the requests sent so far, the last of which is the
    current one, it answers with a response or rejects.  Any deterministic
    remote service, stateful or not, is such a function. *)
Class Platform := {
  atob : jsstring -> Completion jsstring;
  btoa : jsstring -> Completion jsstring;
  TextEncoder_encode : jsstring -> list Z;
  TextDecoder_decode : list Z -> jsstring;
  encodeURIComponent : jsstring -> Completion jsstring;
  remote : History -> Completion Response
}.

(** *** Asynchronous code: a state and error monad over the history *)

Definition IO (A : Type) : Type := History -> Completion A * History.

#[global] Instance IO_ret : MRet IO := fun A a h => (Normal a, h).
#[global] Instance IO_bind : MBind IO := fun A B f m h =>
  match m h with
  | (Normal a, h') => f a h'
  | (Throw e, h') => (Throw e, h')
  end.

Definition throw {A} (e : exn) : IO A := fun h => (Throw e, h).

(** A synchronous computation inside asynchronous code. *)
Definition lift {A} (c : Completion A) : IO A := fun h => (c, h).

(** [try { body } catch (err) { handler }] *)
Definition tryCatch {A} (body : IO A) (handler : exn -> IO A) : IO A :=
  fun h =>
    match body h with
    | (Normal a, h') => (Normal a, h')
    | (Throw err, h') => handler err h'
    end.

(** [await fetch(...)] *)
Definition fetch `{Platform} (req : Request) : IO Response :=
  fun h => let h' := h ++ [req] in (remote h', h').

(** ** Base64 helpers: [toBase64] and [fromBase64] *)

Section Worker.
Context `{Platform}.

Definition toBase64 (str : jsstring) : Completion jsstring :=
  let bytes := TextEncoder_encode str in
  let binary := bytes in
  btoa binary.

Definition fromBase64 (b64 : jsstring) : Completion jsstring :=
  binary ← atob (removeLF b64);
  let bytes := binary in
  mret (TextDecoder_decode bytes).

(** ** The repository lister: [fetchAllRepos] *)

Definition perPage : Z := 100.

Definition apiHeaders (token : jsstring) : list (jsstring * jsstring) :=
  [ (lit "Authorization", lit "Bearer " ++ token);
    (lit "Accept", lit "application/vnd.github+json");
    (lit "User-Agent", lit "cf-worker-weekly-stamp") ].

Definition pageRequest (token : jsstring) (page : Z) : Request :=
  {| rq_method := GET;
     rq_url := GITHUB_API ++ lit "/user/repos?per_page=" ++ String_of_Z perPage
               ++ lit "&page=" ++ String_of_Z page;
     rq_headers := apiHeaders token;
     rq_body := None |}.

(** One turn of the loop up to [const batch = await res.json()]. *)
Definition fetchPage (token : jsstring) (page : Z) : IO (list Repo) :=
  res ← fetch (pageRequest token page);
  if negb (res_ok res) then
    let text := res_text res in
    throw (Error (lit "获取仓库失败: " ++ String_of_Z (res_status res)
                  ++ lit " " ++ text))
  else
    j ← lift (res_json res);
    match j with
    | JRepos batch => mret batch
    | _ => throw TypeError
    end.

(** The [while (true)] loop.  [fuel] bounds the number of turns; [None] means
    that the bound was reached before the loop ended. *)
Fixpoint fetchAllRepos_loop (fuel : nat) (token : jsstring) (page : Z)
    (repos : list Repo) (h : History)
  : option (Completion (list Repo) * History) :=
  match fuel with
  | O => None
  | S fuel' =>
    match fetchPage token page h with
    | (Throw e, h') => Some (Throw e, h')
    | (Normal batch, h') =>
      let repos := repos ++ batch in
      if (Z.of_nat (length batch) <? perPage)%Z then Some (Normal repos, h')
      else fetchAllRepos_loop fuel' token (page + 1)%Z repos h'
    end
  end.

Definition fetchAllRepos (fuel : nat) (token : jsstring) (h : History)
  : option (Completion (list Repo) * History) :=
  fetchAllRepos_loop fuel token 1%Z [] h.

(** ** The document updater: [updateReadmeForRepo] *)

Definition readmeRequest (token owner repo : jsstring) : Request :=
  {| rq_method := GET;
     rq_url := GITHUB_API ++ lit "/repos/" ++ owner ++ lit "/" ++ repo
               ++ lit "/readme";
     rq_headers := apiHeaders token;
     rq_body := None |}.

Definition writeRequest (token owner repo path : jsstring) (body : PutBody)
  : Request :=
  {| rq_method := PUT;
     rq_url := GITHUB_API ++ lit "/repos/" ++ owner ++ lit "/" ++ repo
               ++ lit "/contents/" ++ path;
     rq_headers := apiHeaders token;
     rq_body := Some body |}.

Definition updateReadmeForRepo (token owner repo : jsstring)
    (stampInfo : StampInfo) : IO bool :=
  readmeRes ← fetch (readmeRequest token owner repo);
  if (res_status readmeRes =? 404)%Z then mret false
  else if negb (res_ok readmeRes) then
    let text := res_text readmeRes in
    throw (Error (lit "获取 README 失败: " ++ String_of_Z (res_status readmeRes)
                  ++ lit " " ++ text))
  else
    j ← lift (res_json readmeRes);
    match j with
    | JReadme readmeData =>
      let sha := rd_sha readmeData in
      let path := rd_path readmeData in
      originalContent ← lift (fromBase64 (rd_content readmeData));
      let newContent := applyStamp originalContent (stampText stampInfo) in
      if bool_decide (newContent = originalContent) then mret false
      else
        encodedPath ← lift (encodeURIComponent path);
        content ← lift (toBase64 newContent);
        updateRes ← fetch (writeRequest token owner repo encodedPath
          {| pb_message := lit "chore: update weekly stamp ("
                           ++ sundayStr stampInfo ++ lit ")";
             pb_content := content;
             pb_sha := sha |});
        if negb (res_ok updateRes) then
          let text := res_text updateRes in
          throw (Error (lit "更新 README 失败: "
                        ++ String_of_Z (res_status updateRes)
                        ++ lit " " ++ text))
        else mret true
    | _ => throw TypeError
    end.

(** ** The orchestrator: [updateAllRepos] *)

Record SummaryEntry := {
  se_repo : jsstring;
  se_status : jsstring;
  se_error : option jsstring
}.

Record RunResult := {
  rr_stampInfo : StampInfo;
  rr_summary : list SummaryEntry
}.

Record Env := { GITHUB_TOKEN : option jsstring }.

Definition fullName (repo : Repo) : jsstring :=
  owner_login repo ++ lit "/" ++ repo_name repo.

(** The body of the [for (const repo of repos)] loop: the entry pushed for
    one repository. *)
Definition visitRepo (token : jsstring) (stampInfo : StampInfo) (repo : Repo)
  : IO SummaryEntry :=
  let owner := owner_login repo in
  let name := repo_name repo in
  tryCatch
    (updated ← updateReadmeForRepo token owner name stampInfo;
     mret {| se_repo := owner ++ lit "/" ++ name;
             se_status := if updated : bool then lit "updated" else lit "skipped";
             se_error := None |})
    (fun err =>
     mret {| se_repo := owner ++ lit "/" ++ name;
             se_status := lit "error";
             se_error := Some (String_of_exn err) |}).

Fixpoint forEachRepo (token : jsstring) (stampInfo : StampInfo)
    (repos : list Repo) (summary : list SummaryEntry)
  : IO (list SummaryEntry) :=
  match repos with
  | [] => mret summary
  | repo :: rest =>
    entry ← visitRepo token stampInfo repo;
    forEachRepo token stampInfo rest (summary ++ [entry])
  end.

(** [updateAllRepos(env)]; [now] is the clock reading of [calcThisWeekStamp]
    and [fuel] the bound on the turns of the listing loop. *)
Definition updateAllRepos (fuel : nat) (now : Z) (env : Env) (h : History)
  : option (Completion RunResult * History) :=
  match GITHUB_TOKEN env with
  | None => Some (Throw (Error (lit
      "缺少 GITHUB_TOKEN，请在 Cloudflare Workers 中配置 Secret。")), h)
  | Some token =>
    if isEmpty token then Some (Throw (Error (lit
      "缺少 GITHUB_TOKEN，请在 Cloudflare Workers 中配置 Secret。")), h)
    else
      let stampInfo := calcThisWeekStamp now in
      match fetchAllRepos fuel token h with
      | None => None
      | Some (Throw e, h') => Some (Throw e, h')
      | Some (Normal repos, h') =>
        match forEachRepo token stampInfo repos [] h' with
        | (Normal summary, h'') =>
          Some (Normal {| rr_stampInfo := stampInfo; rr_summary := summary |},
                h'')
        | (Throw e, h'') => Some (Throw e, h'')
        end
      end
  end.

End Worker.

(** ** A reference platform

    The codecs of the runtime as their standards define them (forgiving
    Base64 of the WHATWG Infra standard, the UTF-8 encoder and decoder of
    the WHATWG Encoding standard, [encodeURIComponent] of ECMA-262), and a
    remote service given by a table of routes.  The theorems below hold for
    every platform; this one makes them concrete. *)

Module Ref.
Local Open Scope Z_scope.

Definition b64char (v : Z) : Z :=
  if v <? 26 then 65 + v
  else if v <? 52 then 71 + v
  else if v <? 62 then v - 4
  else if v =? 62 then 43
  else 47.

Definition b64val (c : Z) : option Z :=
  if (65 <=? c) && (c <=? 90) then Some (c - 65)
  else if (97 <=? c) && (c <=? 122) then Some (c - 71)
  else if (48 <=? c) && (c <=? 57) then Some (c + 4)
  else if c =? 43 then Some 62
  else if c =? 47 then Some 63
  else None.

Fixpoint b64encode (bs : list Z) : jsstring :=
  match bs with
  | [] => []
  | [a] => [b64char (a / 4); b64char (a mod 4 * 16); 61; 61]
  | [a; b] =>
    [b64char (a / 4); b64char (a mod 4 * 16 + b / 16);
     b64char (b mod 16 * 4); 61]
  | a :: b :: c :: r =>
    b64char (a / 4) :: b64char (a mod 4 * 16 + b / 16)
    :: b64char (b mod 16 * 4 + c / 64) :: b64char (c mod 64) :: b64encode r
  end.

Fixpoint b64decode (vs : list Z) : list Z :=
  match vs with
  | a :: b :: c :: d :: r =>
    (a * 4 + b / 16) :: (b mod 16 * 16 + c / 4) :: (c mod 4 * 64 + d)
    :: b64decode r
  | [a; b; c] => [a * 4 + b / 16; b mod 16 * 16 + c / 4]
  | [a; b] => [a * 4 + b / 16]
  | _ => []
  end.

Definition InvalidCharacterError : exn :=
  JsError (lit "InvalidCharacterError") (lit "invalid character").

Definition btoa (s : jsstring) : Completion jsstring :=
  if forallb (fun c => (0 <=? c) && (c <=? 255)) s
  then Normal (b64encode s)
  else Throw InvalidCharacterError.

Definition isAsciiSpace (c : Z) : bool :=
  (c =? 9) || (c =? 10) || (c =? 12) || (c =? 13) || (c =? 32).

(** Remove up to two trailing [=] from data whose length is a multiple
    of four. *)
Definition stripPadding (s : jsstring) : jsstring :=
  if (length s mod 4 =? 0)%nat then
    match reverse s with
    | 61 :: 61 :: r => reverse r
    | 61 :: r => reverse r
    | _ => s
    end
  else s.

Definition atob (s : jsstring) : Completion jsstring :=
  let data := stripPadding (List.filter (fun c => negb (isAsciiSpace c)) s) in
  if (length data mod 4 =? 1)%nat then Throw InvalidCharacterError
  else match mapM b64val data with
       | Some vs => Normal (b64decode vs)
       | None => Throw InvalidCharacterError
       end.

Definition isHigh (c : Z) : bool := (55296 <=? c) && (c <=? 56319).
Definition isLow (c : Z) : bool := (56320 <=? c) && (c <=? 57343).

(** The code points of a string; [None] stands for a lone surrogate. *)
Fixpoint codePoints (s : jsstring) : list (option Z) :=
  match s with
  | [] => []
  | c :: r =>
    if isHigh c then
      match r with
      | d :: r' =>
        if isLow d
        then Some (65536 + (c - 55296) * 1024 + (d - 56320)) :: codePoints r'
        else None :: codePoints r
      | [] => [None]
      end
    else if isLow c then None :: codePoints r
    else Some c :: codePoints r
  end.

Definition utf8_bytes (cp : Z) : list Z :=
  if cp <? 128 then [cp]
  else if cp <? 2048 then [192 + cp / 64; 128 + cp mod 64]
  else if cp <? 65536 then
    [224 + cp / 4096; 128 + cp / 64 mod 64; 128 + cp mod 64]
  else
    [240 + cp / 262144; 128 + cp / 4096 mod 64; 128 + cp / 64 mod 64;
     128 + cp mod 64].

(** [new TextEncoder().encode]: a lone surrogate is encoded as U+FFFD. *)
Definition TextEncoder_encode (s : jsstring) : list Z :=
  o ← codePoints s; utf8_bytes (default 65533 o).

(** The state of the UTF-8 decoder: the code point under construction, the
    number of continuation bytes still expected and the bounds of the next
    one. *)
Record dstate := { d_cp : Z; d_left : Z; d_lower : Z; d_upper : Z }.

Definition d_init : dstate :=
  {| d_cp := 0; d_left := 0; d_lower := 128; d_upper := 191 |}.

Definition d_start (b : Z) : list Z * dstate :=
  if b <=? 127 then ([b], d_init)
  else if (194 <=? b) && (b <=? 223) then
    ([], {| d_cp := b - 192; d_left := 1; d_lower := 128; d_upper := 191 |})
  else if (224 <=? b) && (b <=? 239) then
    ([], {| d_cp := b - 224; d_left := 2;
            d_lower := if b =? 224 then 160 else 128;
            d_upper := if b =? 237 then 159 else 191 |})
  else if (240 <=? b) && (b <=? 244) then
    ([], {| d_cp := b - 240; d_left := 3;
            d_lower := if b =? 240 then 144 else 128;
            d_upper := if b =? 244 then 143 else 191 |})
  else ([65533], d_init).

Definition d_step (st : dstate) (b : Z) : list Z * dstate :=
  if d_left st =? 0 then d_start b
  else if (b <? d_lower st) || (d_upper st <? b) then
    let '(out, st') := d_start b in (65533 :: out, st')
  else
    let cp := d_cp st * 64 + (b - 128) in
    if d_left st =? 1 then ([cp], d_init)
    else ([], {| d_cp := cp; d_left := d_left st - 1;
                 d_lower := 128; d_upper := 191 |}).

Fixpoint d_run (st : dstate) (bs : list Z) : list Z :=
  match bs with
  | [] => if d_left st =? 0 then [] else [65533]
  | b :: r => let '(out, st') := d_step st b in out ++ d_run st' r
  end.

Definition utf16_units (cp : Z) : jsstring :=
  if cp <? 65536 then [cp]
  else [55296 + (cp - 65536) / 1024; 56320 + (cp - 65536) mod 1024].

(** [new TextDecoder("utf-8").decode]: errors become U+FFFD and a leading
    byte order mark is dropped. *)
Definition TextDecoder_decode (bs : list Z) : jsstring :=
  let cps := d_run d_init bs in
  let cps := match cps with
             | 65279 :: r => r
             | _ => cps
             end in
  cp ← cps; utf16_units cp.

Definition isUnreserved (c : Z) : bool :=
  ((65 <=? c) && (c <=? 90)) || ((97 <=? c) && (c <=? 122))
  || ((48 <=? c) && (c <=? 57))
  || (c =? 45) || (c =? 95) || (c =? 46) || (c =? 33) || (c =? 126)
  || (c =? 42) || (c =? 39) || (c =? 40) || (c =? 41).

Definition hexDigit (v : Z) : Z := if v <? 10 then 48 + v else 55 + v.

Definition percent (b : Z) : jsstring := [37; hexDigit (b / 16); hexDigit (b mod 16)].

Definition URIError : exn := JsError (lit "URIError") (lit "URI malformed").

Definition encodeURIComponent (s : jsstring) : Completion jsstring :=
  match mapM id (codePoints s) with
  | Some cps =>
    Normal (cp ← cps; if isUnreserved cp then [cp] else b ← utf8_bytes cp; percent b)
  | None => Throw URIError
  end.

(** A remote service given by a table: the answer to a request depends on
    its method and URL only. *)
Definition Method_eqb (a b : Method) : bool :=
  match a, b with
  | GET, GET | PUT, PUT => true
  | _, _ => false
  end.

Definition NetworkError : exn := JsError (lit "TypeError") (lit "fetch failed").

Definition routed (routes : list (Method * jsstring * Completion Response))
  : History -> Completion Response :=
  fun h =>
    match last h with
    | Some rq =>
      match List.find (fun r => Method_eqb (r.1.1) (rq_method rq)
                                && bool_decide (r.1.2 = rq_url rq)) routes with
      | Some r => r.2
      | None => Throw NetworkError
      end
    | None => Throw NetworkError
    end.

Definition platform (server : History -> Completion Response) : Platform :=
  Build_Platform atob btoa TextEncoder_encode TextDecoder_decode
                 encodeURIComponent server.

End Ref.

(** ** A small account for the examples

    Three repositories behind a remote service given by a table: [alpha] has
    a README without a stamp, the write to [beta] is refused with a
    conflict, [gamma] has no README; and a fourth repository, [stamped],
    whose README already ends with the label of the week. *)

Module Demo.

Definition token : jsstring := lit "example-token".

Definition alpha : Repo := {| owner_login := lit "octo"; repo_name := lit "alpha" |}.
Definition beta : Repo := {| owner_login := lit "octo"; repo_name := lit "beta" |}.
Definition gamma : Repo := {| owner_login := lit "octo"; repo_name := lit "gamma" |}.

Definition answer (status : Z) (text : jsstring) (j : Json)
  : Completion Response :=
  Normal {| res_status := status; res_text := text; res_json := Normal j |}.

Definition readme (sha content : jsstring) : Json :=
  JReadme {| rd_sha := sha; rd_path := lit "README.md"; rd_content := content |}.

Definition conflictText : jsstring := lit "README.md does not match sha-b".

Definition routes : list (Method * jsstring * Completion Response) :=
  [ (GET, lit "https://api.github.com/user/repos?per_page=100&page=1",
     answer 200 (lit "[...]") (JRepos [alpha; beta; gamma]));
    (GET, lit "https://api.github.com/repos/octo/alpha/readme",
     answer 200 (lit "{...}") (readme (lit "sha-a") (lit "IyBhbHBoYQo=\n")));
    (PUT, lit "https://api.github.com/repos/octo/alpha/contents/README.md",
     answer 200 (lit "{...}") JOther);
    (GET, lit "https://api.github.com/repos/octo/beta/readme",
     answer 200 (lit "{...}") (readme (lit "sha-b") (lit "IyBiZXRhCg==\n")));
    (PUT, lit "https://api.github.com/repos/octo/beta/contents/README.md",
     answer 409 conflictText JOther);
    (GET, lit "https://api.github.com/repos/octo/gamma/readme",
     answer 404 (lit "Not Found") JOther);
    (GET, lit "https://api.github.com/repos/octo/stamped/readme",
     answer 200 (lit "{...}")
       (readme (lit "sha-s")
          (lit "5pys5ZGo6K6w5b2VOiAyMDI0LTAxLTA3IMK3IDIwMjTlubTnrKwx5ZGoCg==\n")));
    (PUT, lit "https://api.github.com/repos/octo/stamped/contents/README.md",
     answer 200 (lit "{...}") JOther) ].

Definition platform : Platform := Ref.platform (Ref.routed routes).

(** A listing with two pages: the first has 100 items, the second one. *)
Definition paged : History -> Completion Response :=
  fun h =>
    match length h with
    | 1%nat => answer 200 (lit "[...]") (JRepos (replicate 100 alpha))
    | _ => answer 200 (lit "[...]") (JRepos [beta])
    end.

Definition pagedPlatform : Platform := Ref.platform paged.

(** A listing that never ends: every page has 100 items. *)
Definition endless : History -> Completion Response :=
  fun _ => answer 200 (lit "[...]") (JRepos (replicate 100 alpha)).

Definition endlessPlatform : Platform := Ref.platform endless.

(** A remote service that cannot be reached: every request fails. *)
Definition offlinePlatform : Platform := Ref.platform (Ref.routed []).

(** The clock at 2024-01-01, 08:00 UTC. *)
Definition now : Z := (JSDate.UTC 2024 0 1 + 8 * 3600000)%Z.

End Demo.

(** ** Notions used in the statements *)

(** The summary entry that the orchestrator makes of the outcome of one
    repository. *)
Definition entryOf (repo : Repo) (c : Completion bool) : SummaryEntry :=
  match c with
  | Normal true =>
    {| se_repo := fullName repo; se_status := lit "updated"; se_error := None |}
  | Normal false =>
    {| se_repo := fullName repo; se_status := lit "skipped"; se_error := None |}
  | Throw e =>
    {| se_repo := fullName repo; se_status := lit "error";
       se_error := Some (String_of_exn e) |}
  end.

(** [Visits token stampInfo repos h summary h']: starting from the history
    [h], the document updater was run once for each repository of [repos],
    in order, each run starting where the one before ended; [summary] has
    the entries of their outcomes, in the same order, and [h'] is the
    history at the end. *)
Inductive Visits `{Platform} (token : jsstring) (stampInfo : StampInfo)
  : list Repo -> History -> list SummaryEntry -> History -> Prop :=
| Visits_nil h : Visits token stampInfo [] h [] h
| Visits_cons repo repos h c h1 summary h2 :
    updateReadmeForRepo token (owner_login repo) (repo_name repo) stampInfo h
      = (c, h1) ->
    Visits token stampInfo repos h1 summary h2 ->
    Visits token stampInfo (repo :: repos) h (entryOf repo c :: summary) h2.

(** The lines of a text as the patcher reads them. *)
Definition lines (text : jsstring) : list jsstring := split (replaceCRLF text).

(** A line that starts with the marker token. *)
Definition isMarker (l : jsstring) : bool := startsWith l STAMP_PREFIX.

(** A line that is empty or white space only. *)
Definition isBlank (l : jsstring) : bool := isEmpty (trim l).

(** The number of lines of a text that start with the marker token. *)
Definition markerCount (text : jsstring) : nat :=
  length (List.filter isMarker (lines text)).

(** No line before the last non-blank line starts with the marker token. *)
Definition markerOnlyLast (text : jsstring) : bool :=
  match skipBlankTail (lines text) (length (lines text)) with
  | Some i => forallb (fun l => negb (isMarker l)) (take i (lines text))
  | None => true
  end.

(** The last line of a text that is not blank, if there is one. *)
Definition lastNonBlank (text : jsstring) : option jsstring :=
  match skipBlankTail (lines text) (length (lines text)) with
  | Some i => lines text !! i
  | None => None
  end.

(** An array of lines with exactly one marker line, which is its last
    non-blank line. *)
Definition TailStamped (ls : list jsstring) : Prop :=
  exists pre m blanks,
    ls = pre ++ m :: blanks /\
    Forall (fun l => isMarker l = false) pre /\
    isMarker m = true /\
    Forall (fun l => isBlank l = true) blanks.

(** What a request of the worker has to look like, spelled out: its
    headers are the [Authorization] header with the token after [Bearer]
    and two headers with fixed texts, so that the token is in no other
    header; its URL is one of the host [api.github.com], over https; and
    it has no body when it is a read. *)
Definition workerRequest (token : jsstring) (rq : Request) : Prop :=
  rq_headers rq
  = [ (lit "Authorization", lit "Bearer " ++ token);
      (lit "Accept", lit "application/vnd.github+json");
      (lit "User-Agent", lit "cf-worker-weekly-stamp") ]
  /\ startsWith (rq_url rq) (lit "https://api.github.com/") = true
  /\ (rq_method rq = GET -> rq_body rq = None).

(** The error of a run without a token. *)
Definition missingTokenError : exn :=
  Error (lit "缺少 GITHUB_TOKEN，请在 Cloudflare Workers 中配置 Secret。").

(** A Unicode scalar value: a code point that is not a surrogate. *)
Definition scalar (cp : Z) : Prop :=
  (0 <= cp < 55296 \/ 57344 <= cp < 1114112)%Z.

(** A byte, and a string that the transport can carry: its code units are
    16-bit values and it has no surrogate without its partner. *)
Definition isByte (c : Z) : Prop := (0 <= c <= 255)%Z.

Definition wellFormed (s : jsstring) : Prop :=
  Forall (fun c => (0 <= c < 65536)%Z) s
  /\ Forall (fun o : option Z => is_Some o) (Ref.codePoints s).

(** A six-bit value, the unit of Base64. *)
Abbreviation sextet := (fun v : Z => (0 <= v < 64)%Z).

(** What is left of a text once a leading byte order mark is dropped. *)
Definition dropBOM (s : jsstring) : jsstring :=
  match s with
  | 65279%Z :: r => r
  | _ => s
  end.

(** The page numbers [p], [p + 1], ... of [n] consecutive requests. *)
Fixpoint pagesFrom (p : Z) (n : nat) : list Z :=
  match n with
  | O => []
  | S n' => p :: pagesFrom (p + 1)%Z n'
  end.

(** The requests for the pages 1 to [n], in this order. *)
Definition pageRequests (token : jsstring) (n : nat) : list Request :=
  pageRequest token <$> pagesFrom 1 n.

(** A successful answer to a listing request that carries [batch]. *)
Definition answersBatch (res : Response) (batch : list Repo) : Prop :=
  res_ok res = true /\ res_json res = Normal (JRepos batch).

(** The day of the week of ISO 8601: 1 for Monday to 7 for Sunday. *)
Definition isoWeekday (t : Z) : Z :=
  if (JSDate.WeekDay t =? 0)%Z then 7%Z else JSDate.WeekDay t.

(** The day number of the Thursday of the Monday-to-Sunday week of [t]. *)
Definition thursdayOf (t : Z) : Z := (JSDate.Day t + 4 - isoWeekday t)%Z.

(** The code units of a decimal numeral: the digits and the minus sign. *)
Definition isNumeralUnit (c : Z) : Prop := c = 45%Z \/ (48 <= c <= 57)%Z.

(** A decimal digit. *)
Definition isDigit (c : Z) : Prop := (48 <= c <= 57)%Z.

(** A code unit that is neither a line feed nor a carriage return. *)
Abbreviation noBreak := (fun c : Z => c <> LF /\ c <> CR).

(** A day number written as [YYYY-MM-DD]. *)
Definition dateString (day : Z) : jsstring :=
  let t := (day * JSDate.msPerDay)%Z in
  String_of_Z (JSDate.getUTCFullYear t) ++ lit "-"
  ++ padStart (String_of_Z (JSDate.getUTCMonth t + 1)%Z) 2 (lit "0") ++ lit "-"
  ++ padStart (String_of_Z (JSDate.getUTCDate t)) 2 (lit "0").

(** The number of line feeds of a text. *)
Definition countLF (s : jsstring) : nat :=
  length (List.filter (fun c => (c =? LF)%Z) s).

(** Blank lines, and lines that do not start with the marker token. *)
Abbreviation blank := (fun l => isBlank l = true).
Abbreviation plain := (fun l => isMarker l = false).

(** The three ways in which [stampLines] acts. *)
Inductive StampView (ls : list jsstring) (L : jsstring)
  : list jsstring -> Prop :=
| SV_replace pre old blanks :
    ls = pre ++ old :: blanks -> isBlank old = false ->
    isMarker old = true -> Forall blank blanks ->
    StampView ls L (pre ++ L :: blanks)
| SV_append pre l blanks :
    ls = pre ++ l :: blanks -> isBlank l = false ->
    isMarker l = false -> Forall blank blanks ->
    StampView ls L (ls ++ [L])
| SV_append_blank :
    Forall blank ls -> StampView ls L (ls ++ [L]).

(** The label of the week of 2024-01-01, used in the examples. *)
Definition exampleLabel : jsstring := lit "本周记录: 2024-01-07 · 2024年第1周".

(** A label as the week stamp calculator makes them: one line that starts
    with the marker token. *)
Definition goodLabel (L : jsstring) : Prop := isMarker L = true /\ LF ∉ L.

(** A line without its final carriage return, if it has one. *)
Fixpoint chopCR (l : jsstring) : jsstring :=
  match l with
  | [] => []
  | c :: r =>
    match r with
    | [] => if (c =? CR)%Z then [] else [c]
    | _ => c :: chopCR r
    end
  end.

(** ** Strings: splitting and joining *)

#[local] Arguments Z.eqb : simpl never.
#[local] Arguments Z.leb : simpl never.
#[local] Arguments Z.ltb : simpl never.

Section StringFacts.
Implicit Types (s l : jsstring) (ls : list jsstring).

Lemma split_nonempty s : split s <> [].
Proof.
  destruct s as [|c r]; simpl; [done|].
  destruct (c =? LF)%Z; [done|]. by destruct (split r).
Qed.

Lemma split_cons_LF s : split (LF :: s) = [] :: split s.
Proof. reflexivity. Qed.

Lemma split_cons_other c s :
  c <> LF -> exists l ls, split s = l :: ls /\ split (c :: s) = (c :: l) :: ls.
Proof.
  intros Hc. simpl. destruct (Z.eqb_spec c LF) as [->|_]; [done|].
  destruct (split s) as [|l ls] eqn:E; [by destruct (split_nonempty s)|].
  by exists l, ls.
Qed.

Lemma split_noLF l : LF ∉ l -> split l = [l].
Proof.
  induction l as [|c r IH]; intros Hn; [done|].
  apply not_elem_of_cons in Hn as [Hc Hr].
  destruct (split_cons_other c r) as (l' & ls' & E1 & E2); [done|].
  rewrite E2. rewrite (IH Hr) in E1. by inversion E1.
Qed.

Lemma split_app_LF l s : LF ∉ l -> split (l ++ LF :: s) = l :: split s.
Proof.
  induction l as [|c r IH]; intros Hn; [done|].
  apply not_elem_of_cons in Hn as [Hc Hr].
  destruct (split_cons_other c (r ++ LF :: s)) as (l' & ls' & E1 & E2); [done|].
  change ((c :: r) ++ LF :: s) with (c :: (r ++ LF :: s)).
  rewrite E2. rewrite (IH Hr) in E1. by inversion E1.
Qed.

Lemma split_app s1 s2 :
  exists ls1 l1 l2 ls2,
    split s1 = ls1 ++ [l1] /\ split s2 = l2 :: ls2 /\
    split (s1 ++ s2) = ls1 ++ (l1 ++ l2) :: ls2.
Proof.
  induction s1 as [|c r IH]; simpl.
  - destruct (split s2) as [|l2 ls2] eqn:E; [by destruct (split_nonempty s2)|].
    by exists [], [], l2, ls2.
  - destruct IH as (ls1 & l1 & l2 & ls2 & E1 & E2 & E3).
    destruct (c =? LF)%Z.
    + exists ([] :: ls1), l1, l2, ls2. by rewrite E1, E3.
    + rewrite E1, E3. destruct ls1 as [|l ls1]; simpl.
      * by exists [], (c :: l1), l2, ls2.
      * by exists ((c :: l) :: ls1), l1, l2, ls2.
Qed.

Lemma split_lines_noLF s : Forall (fun l => LF ∉ l) (split s).
Proof.
  induction s as [|c r IH]; simpl.
  - repeat constructor. by intros ?%elem_of_nil.
  - destruct (Z.eqb_spec c LF) as [->|Hc].
    + constructor; [by intros ?%elem_of_nil | done].
    + destruct (split r) as [|l ls]; [repeat constructor|].
      * intros [?|?%elem_of_nil]%elem_of_cons; done.
      * inversion IH; subst. constructor; [|done].
        intros [?|?]%elem_of_cons; done.
Qed.

Lemma join_cons l ls : ls <> [] -> join (l :: ls) = l ++ LF :: join ls.
Proof. by destruct ls. Qed.

Lemma join_snoc ls l : ls <> [] -> join (ls ++ [l]) = join ls ++ LF :: l.
Proof.
  induction ls as [|a ls IH]; [done|]. intros _.
  destruct ls as [|b ls]; [done|].
  change ((a :: b :: ls) ++ [l]) with (a :: ((b :: ls) ++ [l])).
  rewrite join_cons by done. rewrite IH by done.
  rewrite (join_cons a (b :: ls)) by done. by rewrite <- app_assoc.
Qed.

Lemma join_split s : join (split s) = s.
Proof.
  induction s as [|c r IH]; [done|].
  simpl split. destruct (Z.eqb_spec c LF) as [->|Hc].
  - rewrite join_cons by apply split_nonempty. by rewrite IH.
  - destruct (split r) as [|l ls] eqn:E; [by destruct (split_nonempty r)|].
    destruct ls as [|l' ls]; simpl in *; by rewrite <- IH.
Qed.

(** Splitting a joined array gives the pieces of its elements. *)
Lemma split_join_bind ls : ls <> [] -> split (join ls) = ls ≫= split.
Proof.
  induction ls as [|a ls IH]; [done|]. intros _.
  destruct ls as [|b ls].
  - simpl. by rewrite app_nil_r.
  - rewrite join_cons by done.
    destruct (split_app a (LF :: join (b :: ls)))
      as (ls1 & l1 & l2 & ls2 & E1 & E2 & E3).
    rewrite E3. rewrite split_cons_LF, IH in E2 by done.
    injection E2 as <- <-. rewrite app_nil_r.
    change ((a :: b :: ls) ≫= split) with (split a ++ ((b :: ls) ≫= split)).
    rewrite E1. by rewrite <- app_assoc.
Qed.

Lemma bind_split_noLF ls : Forall (fun l => LF ∉ l) ls -> ls ≫= split = ls.
Proof.
  induction 1 as [|l ls Hl _ IH]; [done|].
  change ((l :: ls) ≫= split) with (split l ++ (ls ≫= split)).
  by rewrite IH, split_noLF.
Qed.

Lemma split_join ls :
  ls <> [] -> Forall (fun l => LF ∉ l) ls -> split (join ls) = ls.
Proof. intros. by rewrite split_join_bind, bind_split_noLF. Qed.

End StringFacts.

(** ** Strings: blank lines, marker lines and carriage returns *)

Section LineFacts.
Implicit Types (s l p : jsstring) (ls : list jsstring).

Lemma STAMP_PREFIX_units : STAMP_PREFIX = [26412; 21608; 35760; 24405; 58]%Z.
Proof. reflexivity. Qed.

Lemma isEmpty_reverse s : isEmpty (reverse s) = isEmpty s.
Proof.
  destruct s as [|c r]; [done|]. rewrite reverse_cons.
  by destruct (reverse r).
Qed.

Lemma forallb_reverse (f : Z -> bool) s : forallb f (reverse s) = forallb f s.
Proof.
  induction s as [|c r IH]; [done|].
  rewrite reverse_cons, forallb_app, IH. simpl.
  rewrite andb_true_r. apply andb_comm.
Qed.

Lemma forallb_unfold (f : Z -> bool) c s :
  forallb f (c :: s) = f c && forallb f s.
Proof. reflexivity. Qed.

Lemma isEmpty_trimStart s : isEmpty (trimStart s) = forallb isWhiteSpace s.
Proof.
  induction s as [|c r IH]; [done|]. simpl.
  by destruct (isWhiteSpace c).
Qed.

Lemma forallb_trimStart s :
  forallb isWhiteSpace (trimStart s) = forallb isWhiteSpace s.
Proof.
  induction s as [|c r IH]; [done|]. simpl.
  destruct (isWhiteSpace c) eqn:E; [done|]. simpl. by rewrite E.
Qed.

(** [l.trim() === ""] holds exactly when every code unit of [l] is white
    space. *)
Lemma isBlank_forallb l : isBlank l = forallb isWhiteSpace l.
Proof.
  unfold isBlank, trim, trimEnd.
  by rewrite isEmpty_reverse, isEmpty_trimStart, forallb_reverse,
    forallb_trimStart.
Qed.

Lemma isBlank_nil : isBlank [] = true.
Proof. reflexivity. Qed.

Lemma isMarker_not_blank l : isMarker l = true -> isBlank l = false.
Proof.
  unfold isMarker. rewrite STAMP_PREFIX_units, isBlank_forallb.
  destruct l as [|c r]; [done|]. simpl.
  intros [Hc _]%andb_prop. apply Z.eqb_eq in Hc. by subst c.
Qed.

Lemma isBlank_chopCR l : isBlank (chopCR l) = isBlank l.
Proof.
  rewrite !isBlank_forallb.
  induction l as [|c r IH]; [done|].
  destruct r as [|c' r].
  - simpl. destruct (Z.eqb_spec c CR) as [->|_]; [done|]. done.
  - change (chopCR (c :: c' :: r)) with (c :: chopCR (c' :: r)).
    rewrite (forallb_unfold _ c (chopCR _)), IH. reflexivity.
Qed.

Lemma startsWith_cons d s c p :
  startsWith (d :: s) (c :: p) = (d =? c)%Z && startsWith s p.
Proof. reflexivity. Qed.

Lemma startsWith_chopCR l p :
  CR ∉ p -> startsWith (chopCR l) p = startsWith l p.
Proof.
  revert p. induction l as [|c r IH]; intros p Hp; [done|].
  destruct r as [|c' r].
  - simpl chopCR. destruct (Z.eqb_spec c CR) as [->|_]; [|done].
    destruct p as [|q p]; [done|]. simpl.
    apply not_elem_of_cons in Hp as [Hq _].
    destruct (Z.eqb_spec CR q); [congruence|done].
  - change (chopCR (c :: c' :: r)) with (c :: chopCR (c' :: r)).
    destruct p as [|q p]; [done|].
    apply not_elem_of_cons in Hp as [_ Hp].
    rewrite !startsWith_cons, (IH p Hp). reflexivity.
Qed.

Lemma isMarker_chopCR l : isMarker (chopCR l) = isMarker l.
Proof.
  apply startsWith_chopCR. rewrite STAMP_PREFIX_units. unfold CR.
  rewrite !not_elem_of_cons. repeat split; try lia. apply not_elem_of_nil.
Qed.

Lemma chopCR_noLF l : LF ∉ l -> LF ∉ chopCR l.
Proof.
  induction l as [|c r IH]; [done|]. intros [Hc Hr]%not_elem_of_cons.
  destruct r as [|c' r].
  - simpl. destruct (c =? CR)%Z; [apply not_elem_of_nil|].
    by apply not_elem_of_cons.
  - change (chopCR (c :: c' :: r)) with (c :: chopCR (c' :: r)).
    apply not_elem_of_cons. split; [done|]. by apply IH.
Qed.

Lemma chopCR_id l : last l <> Some CR -> chopCR l = l.
Proof.
  induction l as [|c r IH]; [done|]. intros Hl.
  destruct r as [|c' r].
  - simpl in *. destruct (Z.eqb_spec c CR) as [->|_]; [done|done].
  - change (chopCR (c :: c' :: r)) with (c :: chopCR (c' :: r)).
    f_equal. apply IH. by rewrite last_cons_cons in Hl.
Qed.

(** Normalising a line that is followed by a line feed removes its final
    carriage return and nothing else. *)
Lemma replaceCRLF_line l s :
  LF ∉ l -> replaceCRLF (l ++ LF :: s) = chopCR l ++ LF :: replaceCRLF s.
Proof.
  induction l as [|c r IH]; intros Hn.
  - simpl. by destruct s.
  - apply not_elem_of_cons in Hn as [Hc Hr].
    destruct r as [|c' r].
    + simpl. destruct (Z.eqb_spec c CR) as [->|Hcr]; simpl; [done|].
      by destruct s.
    + change (chopCR (c :: c' :: r)) with (c :: chopCR (c' :: r)).
      change ((c :: chopCR (c' :: r)) ++ LF :: replaceCRLF s)
        with (c :: (chopCR (c' :: r) ++ LF :: replaceCRLF s)).
      rewrite <- IH by done.
      assert (c' <> LF) as Hc' by (intros ->; apply Hr; by left).
      change (replaceCRLF ((c :: c' :: r) ++ LF :: s))
        with (if (c =? CR)%Z && (c' =? LF)%Z
              then LF :: replaceCRLF (r ++ LF :: s)
              else c :: replaceCRLF ((c' :: r) ++ LF :: s)).
      destruct (Z.eqb_spec c' LF); [done|].
      by rewrite andb_false_r.
Qed.

(** The lines of what [join] and the final line feed produce. *)
Lemma lines_join_LF ls :
  ls <> [] -> Forall (fun l => LF ∉ l) ls ->
  lines (join ls ++ [LF]) = (chopCR <$> ls) ++ [[]].
Proof.
  unfold lines. induction ls as [|a ls IH]; [done|]. intros _ Hall.
  apply Forall_cons in Hall as [Ha Hall].
  destruct ls as [|b ls].
  - simpl join. rewrite replaceCRLF_line by done. simpl replaceCRLF.
    rewrite split_app_LF by by apply chopCR_noLF. done.
  - rewrite join_cons by done. rewrite <- app_assoc, <- app_comm_cons.
    rewrite replaceCRLF_line by done.
    rewrite split_app_LF by by apply chopCR_noLF.
    rewrite IH by done. done.
Qed.

Lemma lines_noLF d : Forall (fun l => LF ∉ l) (lines d).
Proof. apply split_lines_noLF. Qed.

Lemma lines_nonempty d : lines d <> [].
Proof. apply split_nonempty. Qed.

End LineFacts.

(** ** The backward scan and the replace-or-push step *)

Section Patcher.
Implicit Types (l L : jsstring) (ls pre blanks : list jsstring).

Lemma skipBlankTail_prefix ls more n :
  (n <= length ls)%nat -> skipBlankTail (ls ++ more) n = skipBlankTail ls n.
Proof.
  induction n as [|n IH]; intros Hn; [done|]. simpl.
  unfold line_at. rewrite lookup_app_l by lia. rewrite IH by lia. done.
Qed.

Lemma skipBlankTail_snoc ls l :
  skipBlankTail (ls ++ [l]) (length (ls ++ [l])) =
  if isBlank l then skipBlankTail ls (length ls) else Some (length ls).
Proof.
  rewrite length_app. simpl length. rewrite Nat.add_1_r. simpl.
  unfold line_at. rewrite list_lookup_middle by done. simpl.
  fold (isBlank l). by rewrite skipBlankTail_prefix.
Qed.

Lemma skipBlankTail_blanks ls blanks :
  Forall blank blanks ->
  skipBlankTail (ls ++ blanks) (length (ls ++ blanks)) =
  skipBlankTail ls (length ls).
Proof.
  induction blanks as [|b bs IH] using rev_ind; intros Hb.
  - by rewrite app_nil_r.
  - apply Forall_app in Hb as [Hbs Hb%Forall_inv].
    rewrite app_assoc, skipBlankTail_snoc, Hb. by apply IH.
Qed.

Lemma skipBlankTail_all_blank ls :
  Forall blank ls -> skipBlankTail ls (length ls) = None.
Proof. intros H. exact (skipBlankTail_blanks [] ls H). Qed.

Lemma skipBlankTail_last pre l blanks :
  isBlank l = false -> Forall blank blanks ->
  skipBlankTail (pre ++ l :: blanks) (length (pre ++ l :: blanks))
  = Some (length pre).
Proof.
  intros Hl Hb.
  rewrite (cons_middle l pre blanks), app_assoc.
  rewrite skipBlankTail_blanks by done.
  by rewrite skipBlankTail_snoc, Hl.
Qed.

(** Every array of lines is all blank or has a last non-blank line. *)
Lemma last_nonblank_split ls :
  Forall blank ls \/
  exists pre l blanks,
    ls = pre ++ l :: blanks /\ isBlank l = false /\ Forall blank blanks.
Proof.
  induction ls as [|b ls IH] using rev_ind; [by left|].
  destruct (isBlank b) eqn:Eb.
  - destruct IH as [IH | (pre & l & blanks & -> & Hl & Hb)].
    + left. apply Forall_app. split; [done|]. by apply Forall_singleton.
    + right. exists pre, l, (blanks ++ [b]). split_and!; [|done|].
      * by rewrite <- app_assoc.
      * apply Forall_app. split; [done|]. by apply Forall_singleton.
  - right. by exists ls, b, [].
Qed.

Lemma stampLines_view ls L : StampView ls L (stampLines ls L).
Proof.
  unfold stampLines.
  destruct (last_nonblank_split ls) as [Hb | (pre & l & blanks & E & Hl & Hb)].
  - rewrite skipBlankTail_all_blank by done. by apply SV_append_blank.
  - subst ls. rewrite skipBlankTail_last by done.
    assert (line_at (pre ++ l :: blanks) (length pre) = l) as ->.
    { unfold line_at. by rewrite list_lookup_middle. }
    fold (isMarker l). destruct (isMarker l) eqn:Em.
    + replace (<[length pre:=L]> (pre ++ l :: blanks))
        with (pre ++ L :: blanks).
      * by eapply SV_replace.
      * replace (length pre) with (length pre + 0)%nat by lia.
        by rewrite insert_app_r.
    + by eapply SV_append.
Qed.

Lemma applyStamp_unfold d L :
  applyStamp d L = join (stampLines (lines d) L) ++ [LF].
Proof.
  unfold applyStamp. fold (lines d).
  destruct (lines d) eqn:E; [by destruct (lines_nonempty d)|done].
Qed.

End Patcher.

(** ** The marker patcher: what one application does *)

Section PatcherLaws.
Implicit Types (d l L : jsstring) (ls pre blanks : list jsstring).

Lemma blank_plain l : isBlank l = true -> isMarker l = false.
Proof.
  intros Hb. destruct (isMarker l) eqn:E; [|done].
  apply isMarker_not_blank in E. congruence.
Qed.

Lemma Forall_blank_plain ls : Forall blank ls -> Forall plain ls.
Proof. intros H. eapply Forall_impl; [exact H|apply blank_plain]. Qed.

Lemma stampLines_Forall (Q : jsstring -> Prop) ls L :
  Forall Q ls -> Q L -> Forall Q (stampLines ls L).
Proof.
  intros Hls HL.
  destruct (stampLines_view ls L) as [pre old blanks -> _ _ _|? ? ? _ _ _ _|_].
  - apply Forall_app in Hls as [Hpre Hrest].
    apply Forall_cons in Hrest as [_ Hblanks].
    apply Forall_app. split; [done|]. by apply Forall_cons.
  - apply Forall_app. split; [done|]. by apply Forall_singleton.
  - apply Forall_app. split; [done|]. by apply Forall_singleton.
Qed.

Lemma stampLines_nonempty ls L : stampLines ls L <> [].
Proof.
  destruct (stampLines_view ls L) as [pre ? ? _ _ _ _|? ? ? _ _ _ _|_];
    intros E; by apply app_eq_nil in E as [_ ?].
Qed.

(** After [stampLines] the label is the last non-blank line. *)
Lemma stampLines_tail ls L :
  exists pre blanks, stampLines ls L = pre ++ L :: blanks /\ Forall blank blanks.
Proof.
  destruct (stampLines_view ls L) as [pre old blanks _ _ _ Hb|? ? ? _ _ _ _|_].
  - by exists pre, blanks.
  - by exists ls, [].
  - by exists ls, [].
Qed.

Lemma stampLines_replace pre old blanks L :
  isBlank old = false -> isMarker old = true -> Forall blank blanks ->
  stampLines (pre ++ old :: blanks) L = pre ++ L :: blanks.
Proof.
  intros Hold Hm Hb. unfold stampLines.
  rewrite skipBlankTail_last by done.
  unfold line_at. rewrite list_lookup_middle by done. simpl.
  fold (isMarker old). rewrite Hm.
  replace (length pre) with (length pre + 0)%nat by lia.
  by rewrite insert_app_r.
Qed.

Lemma lastNonBlank_decomposed d pre l blanks :
  lines d = pre ++ l :: blanks -> isBlank l = false -> Forall blank blanks ->
  lastNonBlank d = Some l.
Proof.
  intros E Hl Hb. unfold lastNonBlank. rewrite E.
  rewrite skipBlankTail_last by done. by rewrite list_lookup_middle.
Qed.

Lemma markerOnlyLast_decomposed d pre l blanks :
  lines d = pre ++ l :: blanks -> isBlank l = false -> Forall blank blanks ->
  markerOnlyLast d = true -> Forall plain pre.
Proof.
  intros E Hl Hb. unfold markerOnlyLast. rewrite E.
  rewrite skipBlankTail_last by done. rewrite take_app_length.
  intros H. apply Forall_forall. intros x Hx.
  rewrite forallb_forall in H. apply list_elem_of_In in Hx.
  specialize (H x Hx).
  by apply negb_true_iff in H.
Qed.

(** What happens to a document that already carries the label: the text
    grows by one line feed.  The hypotheses on carriage returns keep the
    second normalisation from changing any line. *)
Lemma applyStamp_twice d L :
  goodLabel L -> last L <> Some CR ->
  Forall (fun l => last l <> Some CR) (lines d) ->
  applyStamp (applyStamp d L) L = applyStamp d L ++ [LF].
Proof.
  intros [Hm HLF] HCR Hd.
  rewrite (applyStamp_unfold (applyStamp d L) L).
  rewrite (applyStamp_unfold d L).
  assert (Forall (fun l => LF ∉ l) (stampLines (lines d) L)) as Hno
    by (apply stampLines_Forall; [apply lines_noLF|done]).
  assert (Forall (fun l => last l <> Some CR) (stampLines (lines d) L)) as Hcr
    by by apply stampLines_Forall.
  rewrite lines_join_LF by (done || apply stampLines_nonempty).
  replace (chopCR <$> stampLines (lines d) L) with (stampLines (lines d) L).
  2:{ symmetry. rewrite <- (list_fmap_id (stampLines (lines d) L)) at 2.
      apply Forall_fmap_ext_1. eapply Forall_impl; [exact Hcr|].
      intros l Hl. by apply chopCR_id. }
  destruct (stampLines_tail (lines d) L) as (pre & blanks & E & Hb).
  rewrite E. rewrite <- app_assoc, <- app_comm_cons.
  rewrite stampLines_replace.
  - rewrite app_comm_cons, app_assoc. by rewrite join_snoc by by destruct pre.
  - by apply isMarker_not_blank.
  - done.
  - apply Forall_app. split; [done|]. by apply Forall_singleton.
Qed.

End PatcherLaws.

(** ** The marker patcher never returns its input

    The result always has more line feeds than the document. *)

Section LineFeeds.
Implicit Types (s d L : jsstring) (ls : list jsstring).

Lemma countLF_app s1 s2 : countLF (s1 ++ s2) = (countLF s1 + countLF s2)%nat.
Proof. unfold countLF. by rewrite List.filter_app, length_app. Qed.

Lemma countLF_cons c s :
  countLF (c :: s) = ((if (c =? LF)%Z then 1 else 0) + countLF s)%nat.
Proof. unfold countLF. simpl. by destruct (c =? LF)%Z. Qed.

Lemma countLF_replaceCRLF s : countLF (replaceCRLF s) = countLF s.
Proof.
  assert (forall n s, (length s <= n)%nat ->
            countLF (replaceCRLF s) = countLF s) as Hn.
  { clear s. induction n as [|n IH]; intros s Hs.
    - destruct s; [done|simpl in Hs; lia].
    - destruct s as [|c [|c' r]]; [done..|].
      change (replaceCRLF (c :: c' :: r))
        with (if (c =? CR)%Z && (c' =? LF)%Z
              then LF :: replaceCRLF r else c :: replaceCRLF (c' :: r)).
      simpl in Hs.
      destruct (Z.eqb_spec c CR) as [->|_];
        [destruct (Z.eqb_spec c' LF) as [->|_]|]; cbn [andb].
      + rewrite !countLF_cons, IH by lia. reflexivity.
      + rewrite !(countLF_cons CR), IH by (simpl; lia). reflexivity.
      + rewrite !(countLF_cons c), IH by (simpl; lia). reflexivity. }
  by apply (Hn (length s)).
Qed.

Lemma split_length s : length (split s) = S (countLF s).
Proof.
  induction s as [|c r IH]; [done|].
  rewrite countLF_cons. simpl split.
  destruct (c =? LF)%Z; [simpl; by rewrite IH|].
  rewrite Nat.add_0_l, <- IH. by destruct (split r).
Qed.

Lemma lines_length d : length (lines d) = S (countLF d).
Proof. unfold lines. by rewrite split_length, countLF_replaceCRLF. Qed.

Lemma countLF_join ls : (length ls <= S (countLF (join ls)))%nat.
Proof.
  induction ls as [|l ls IH]; [simpl; lia|].
  destruct ls as [|l' ls]; [simpl; lia|].
  rewrite join_cons by done. rewrite countLF_app, countLF_cons.
  rewrite Z.eqb_refl. simpl length in *. lia.
Qed.

Lemma stampLines_length ls L : (length ls <= length (stampLines ls L))%nat.
Proof.
  destruct (stampLines_view ls L) as [pre old blanks -> _ _ _|? ? ? _ _ _ _|_];
    rewrite !length_app; simpl; lia.
Qed.

(** Whatever the document and the label, the patched text differs from the
    document. *)
Lemma applyStamp_never_fixed d L : applyStamp d L <> d.
Proof.
  intros E. apply (f_equal countLF) in E.
  rewrite applyStamp_unfold, countLF_app in E.
  pose proof (countLF_join (stampLines (lines d) L)).
  pose proof (stampLines_length (lines d) L).
  pose proof (lines_length d).
  change (countLF [LF]) with 1%nat in E. lia.
Qed.

End LineFeeds.

(** ** The marker patcher: the properties of the specification *)

Section PatcherClaims.
Implicit Types (d l L : jsstring) (ls pre blanks : list jsstring).

Lemma exampleLabel_good : goodLabel exampleLabel.
Proof.
  split; [reflexivity|].
  apply (bool_decide_unpack _). vm_compute. exact I.
Qed.

(** C1. Patching twice with the same label is not the same as patching
    once: on the document ["# Title\n"] with the label of 2024-01-01 the
    second application returns the result of the first followed by one more
    line feed; and for no document and no label does the second application
    return the result of the first. *)
Theorem applyStamp_second_pass_grows :
  applyStamp (lit "# Title\n") exampleLabel
  = lit "# Title\n\n" ++ exampleLabel ++ lit "\n"
  /\ applyStamp (applyStamp (lit "# Title\n") exampleLabel) exampleLabel
     = lit "# Title\n\n" ++ exampleLabel ++ lit "\n\n"
  /\ applyStamp (applyStamp (lit "# Title\n") exampleLabel) exampleLabel
     <> applyStamp (lit "# Title\n") exampleLabel
  /\ (forall d L, applyStamp (applyStamp d L) L <> applyStamp d L).
Proof.
  split_and!; [by vm_compute..| |].
  - intros E. apply (f_equal length) in E. vm_compute in E. discriminate.
  - intros d L. apply applyStamp_never_fixed.
Qed.

(** C3. The empty document: the result is a line feed, the label and a
    line feed, so it is not the label followed by one line feed. *)
Theorem applyStamp_empty_document L :
  applyStamp (lit "") L = lit "\n" ++ L ++ lit "\n"
  /\ applyStamp (lit "") L <> L ++ lit "\n".
Proof.
  assert (applyStamp (lit "") L = lit "\n" ++ L ++ lit "\n") as E
    by reflexivity.
  split; [done|]. rewrite E. intros E'.
  apply (f_equal length) in E'. simpl in E'. rewrite !length_app in E'.
  simpl in E'. lia.
Qed.

(** The push case in general: when the last non-blank line does not start
    with the marker token, or when there is no such line, the label is
    pushed after every element that [split] yields. *)
Lemma applyStamp_push d L :
  (forall l, lastNonBlank d = Some l -> isMarker l = false) ->
  applyStamp d L = replaceCRLF d ++ lit "\n" ++ L ++ lit "\n"
  /\ stampLines (lines d) L = lines d ++ [L].
Proof.
  intros Hlast. rewrite applyStamp_unfold.
  assert (stampLines (lines d) L = lines d ++ [L]) as E.
  { destruct (stampLines_view (lines d) L)
      as [pre old blanks E Hold Hm Hb| |]; [|done..].
    rewrite (Hlast old) in Hm; [done|].
    by eapply lastNonBlank_decomposed. }
  split; [|done]. rewrite E.
  rewrite join_snoc by apply lines_nonempty.
  unfold lines. rewrite join_split.
  change (lit "\n") with [LF]. by rewrite <- app_assoc.
Qed.

(** C4. The append case of the specification: the label is appended, but
    the result has an empty line between [line2] and the label, so it is
    not the document followed by the label and a line feed.  The same
    document without its final line feed gets the label on the next line,
    without an empty line. *)
Theorem applyStamp_append_example L :
  applyStamp (lit "line1\nline2\n") L
  = lit "line1\nline2\n\n" ++ L ++ lit "\n"
  /\ applyStamp (lit "line1\nline2\n") L
     <> lit "line1\nline2\n" ++ L ++ lit "\n"
  /\ applyStamp (lit "line1\nline2") L
     = lit "line1\nline2\n" ++ L ++ lit "\n".
Proof.
  assert (applyStamp (lit "line1\nline2\n") L
          = lit "line1\nline2\n\n" ++ L ++ lit "\n") as E.
  { destruct (applyStamp_push (lit "line1\nline2\n") L) as [-> _]; [|done].
    intros l El. vm_compute in El. injection El as <-. reflexivity. }
  split_and!.
  - exact E.
  - rewrite E. intros E'. apply (f_equal length) in E'.
    rewrite !length_app in E'. simpl in E'. lia.
  - destruct (applyStamp_push (lit "line1\nline2") L) as [-> _]; [|done].
    intros l El. vm_compute in El. injection El as <-. reflexivity.
Qed.

(** C5. The replace case of the specification: the marker line is replaced
    by the label, and the result ends with two line feeds, not one. *)
Theorem applyStamp_replace_example L :
  applyStamp (lit "line1\n" ++ STAMP_PREFIX ++ lit " old\n") L
  = lit "line1\n" ++ L ++ lit "\n\n"
  /\ applyStamp (lit "line1\n" ++ STAMP_PREFIX ++ lit " old\n") L
     <> lit "line1\n" ++ L ++ lit "\n".
Proof.
  assert (applyStamp (lit "line1\n" ++ STAMP_PREFIX ++ lit " old\n") L
          = lit "line1\n" ++ L ++ lit "\n\n") as E.
  { rewrite applyStamp_unfold.
    change (lines (lit "line1\n" ++ STAMP_PREFIX ++ lit " old\n"))
      with ([lit "line1"] ++ (STAMP_PREFIX ++ lit " old") :: [[]]).
    rewrite stampLines_replace; [|reflexivity|reflexivity|by repeat constructor].
    change (lit "line1\n") with (lit "line1" ++ [LF]).
    change (lit "\n\n") with [LF; LF].
    simpl. by rewrite <- !app_assoc. }
  split; [done|]. rewrite E. intros E'.
  apply (f_equal length) in E'. rewrite !length_app in E'.
  simpl in E'. lia.
Qed.

(** C7. Every line of the document that does not start with the marker
    token is a line of the result, unchanged and in the same order: the
    non-marker lines of the document, read after the normalisation of line
    ends, are a subsequence of the lines of the result. *)
Theorem applyStamp_preserves_lines d L :
  filter (fun l => isMarker l = false) (lines d)
    `sublist_of` split (applyStamp d L).
Proof.
  rewrite applyStamp_unfold.
  rewrite <- (join_snoc _ []) by apply stampLines_nonempty.
  rewrite split_join_bind by (intros E; by apply app_eq_nil in E as [_ ?]).
  rewrite bind_app.
  apply sublist_inserts_r.
  pose proof (lines_noLF d) as Hno.
  destruct (stampLines_view (lines d) L)
    as [pre old blanks E Hold Hm Hb|pre l blanks E Hl Hm Hb|Hb].
  - rewrite E in *. apply Forall_app in Hno as [Hpre Hrest].
    apply Forall_cons in Hrest as [_ Hblanks].
    rewrite filter_app, filter_cons_False by congruence.
    rewrite bind_app, bind_cons.
    rewrite !bind_split_noLF by done.
    apply sublist_app; [apply sublist_filter|].
    apply sublist_inserts_l, sublist_filter.
  - rewrite bind_app, bind_split_noLF by done.
    apply sublist_inserts_r, sublist_filter.
  - rewrite bind_app, bind_split_noLF by done.
    apply sublist_inserts_r, sublist_filter.
Qed.

Lemma filter_plain_nil ls :
  Forall (fun l => isMarker l = false) ls -> List.filter isMarker ls = [].
Proof.
  induction 1 as [|l ls Hl _ IH]; [done|]. simpl. by rewrite Hl.
Qed.

Lemma TailStamped_count d : TailStamped (lines d) -> markerCount d = 1%nat.
Proof.
  intros (pre & m & blanks & E & Hpre & Hm & Hb).
  unfold markerCount. rewrite E, List.filter_app. simpl. rewrite Hm.
  rewrite (filter_plain_nil pre) by done.
  by rewrite (filter_plain_nil blanks) by by apply Forall_blank_plain.
Qed.

Lemma TailStamped_only_last d :
  TailStamped (lines d) -> markerOnlyLast d = true.
Proof.
  intros (pre & m & blanks & E & Hpre & Hm & Hb).
  unfold markerOnlyLast. rewrite E.
  rewrite skipBlankTail_last by (done || by apply isMarker_not_blank).
  rewrite take_app_length. apply forallb_forall.
  intros x Hx%list_elem_of_In. rewrite Forall_forall in Hpre.
  by rewrite (Hpre x Hx).
Qed.

Lemma TailStamped_chop pre L blanks :
  Forall (fun l => isMarker l = false) pre -> isMarker L = true ->
  Forall (fun l => isBlank l = true) blanks ->
  TailStamped ((chopCR <$> pre ++ L :: blanks) ++ [[]]).
Proof.
  intros Hpre HL Hb.
  exists (chopCR <$> pre), (chopCR L), ((chopCR <$> blanks) ++ [[]]).
  split_and!.
  - by rewrite fmap_app, fmap_cons, <- app_assoc.
  - apply Forall_fmap. eapply Forall_impl; [exact Hpre|].
    intros l Hl. simpl. by rewrite isMarker_chopCR.
  - by rewrite isMarker_chopCR.
  - apply Forall_app. split; [|by apply Forall_singleton].
    apply Forall_fmap. eapply Forall_impl; [exact Hb|].
    intros l Hl. simpl. by rewrite isBlank_chopCR.
Qed.

(** One application to a document without stray marker lines leaves exactly
    one marker line, at the tail. *)
Lemma applyStamp_TailStamped d L :
  markerOnlyLast d = true -> goodLabel L ->
  TailStamped (lines (applyStamp d L)).
Proof.
  intros Hd [Hm HLF]. rewrite applyStamp_unfold.
  rewrite lines_join_LF;
    [|apply stampLines_nonempty
     |apply stampLines_Forall; [apply lines_noLF|done]].
  destruct (stampLines_view (lines d) L)
    as [pre old blanks E Hold Hmo Hb|pre l blanks E Hl Hml Hb|Hb].
  - apply TailStamped_chop; [|done..].
    by eapply markerOnlyLast_decomposed.
  - rewrite <- (app_nil_r ([L])). rewrite <- app_comm_cons.
    apply TailStamped_chop; [|done..].
    rewrite E. apply Forall_app. split.
    + by eapply markerOnlyLast_decomposed.
    + apply Forall_cons. split; [done|]. by apply Forall_blank_plain.
  - rewrite <- (app_nil_r ([L])). rewrite <- app_comm_cons.
    apply TailStamped_chop; [|done..]. by apply Forall_blank_plain.
Qed.

Lemma foldl_applyStamp_TailStamped labels d :
  Forall goodLabel labels -> TailStamped (lines d) ->
  TailStamped (lines (foldl applyStamp d labels)).
Proof.
  revert d. induction labels as [|L labels IH]; intros d Hl Hd; [done|].
  apply Forall_cons in Hl as [HL Hl]. simpl. apply IH; [done|].
  apply applyStamp_TailStamped; [|done]. by apply TailStamped_only_last.
Qed.

(** C6, as the specification states it, fails.  A document that has a
    marker line above its last non-blank line keeps it, and the label is
    appended as a second marker line.  The labels matter as well: a label
    that does not start with the marker token leaves no marker line, and a
    label of two marker lines leaves two. *)
Lemma applyStamp_second_marker :
  markerCount (foldl applyStamp (lit "本周记录: a\nfoo") [exampleLabel]) <> 1%nat
  /\ markerCount (foldl applyStamp (lit "本周记录: a\nfoo") [exampleLabel]) = 2%nat
  /\ markerCount (foldl applyStamp (lit "foo\n") [lit "week 1"]) = 0%nat
  /\ markerCount (foldl applyStamp (lit "foo\n")
                    [lit "本周记录: a\n本周记录: b"]) = 2%nat.
Proof. split_and!; by vm_compute. Qed.

(** C6, amended. If no line above the last non-blank line of the document
    starts with the marker token, and every label is one line that starts
    with the marker token, then after the labels of a non-empty sequence
    were applied in turn the result has exactly one line that starts with
    the marker token. *)
Theorem applyStamp_single_marker d labels :
  labels <> [] -> Forall goodLabel labels -> markerOnlyLast d = true ->
  markerCount (foldl applyStamp d labels) = 1%nat.
Proof.
  intros Hne Hl Hd. destruct labels as [|L labels]; [done|].
  apply Forall_cons in Hl as [HL Hl]. simpl.
  apply TailStamped_count, foldl_applyStamp_TailStamped; [done|].
  by apply applyStamp_TailStamped.
Qed.

Lemma applyStamp_single_marker_witness :
  markerCount (foldl applyStamp (lit "# Title\r\n\r\ntext\r\n")
                 [STAMP_PREFIX ++ lit " old"; exampleLabel]) = 1%nat.
Proof.
  apply applyStamp_single_marker.
  - discriminate.
  - apply Forall_cons. split; [|apply Forall_singleton, exampleLabel_good].
    split; [reflexivity|]. apply (bool_decide_unpack _). vm_compute. exact I.
  - reflexivity.
Defined.

End PatcherClaims.

(** ** Dates: the calendar functions *)

Section DateFacts.
Import JSDate.
Local Open Scope Z_scope.

(** [YearFromDay] meets its specification: it is the year that contains the
    day. *)
Lemma YearFromDay_spec d :
  DayFromYear (YearFromDay d) <= d < DayFromYear (YearFromDay d + 1).
Proof.
  unfold YearFromDay, DayFromYear.
  repeat match goal with
         | |- context [?a <? ?b] => destruct (Z.ltb_spec a b)
         | |- context [?a <=? ?b] => destruct (Z.leb_spec a b)
         end; Z.div_mod_to_equations; lia.
Qed.

Lemma Day_MakeDate day time :
  0 <= time < msPerDay -> Day (MakeDate day time) = day.
Proof.
  intros H. unfold Day, MakeDate. symmetry.
  apply (Z.div_unique _ _ day time); lia.
Qed.

Lemma TimeWithinDay_range t : 0 <= TimeWithinDay t < msPerDay.
Proof. unfold TimeWithinDay. apply Z.mod_pos_bound. reflexivity. Qed.

Lemma MonthFromTime_range t : 0 <= MonthFromTime t <= 11.
Proof.
  unfold MonthFromTime.
  repeat match goal with
         | |- context [?a <? ?b] => destruct (Z.ltb_spec a b)
         end; lia.
Qed.

(** Setting the date to the current date plus [k] moves the time value by
    [k] days. *)
Lemma MakeDay_roundtrip t k :
  MakeDay (YearFromTime t) (MonthFromTime t) (DateFromTime t + k) = Day t + k.
Proof.
  pose proof (MonthFromTime_range t) as Hm.
  unfold MakeDay. rewrite Z.div_small, Z.mod_small, Z.add_0_r by lia.
  unfold DateFromTime, DayWithinYear, InLeapYear. lia.
Qed.

Lemma Day_setUTCDate t k : Day (setUTCDate t (getUTCDate t + k)) = Day t + k.
Proof.
  unfold setUTCDate, getUTCDate.
  rewrite Day_MakeDate by apply TimeWithinDay_range.
  apply MakeDay_roundtrip.
Qed.

(** The calendar fields of a time value depend on its day only. *)
Lemma fields_Day t t' :
  Day t = Day t' ->
  getUTCFullYear t = getUTCFullYear t' /\ getUTCMonth t = getUTCMonth t'
  /\ getUTCDate t = getUTCDate t' /\ getUTCDay t = getUTCDay t'.
Proof.
  intros E.
  unfold getUTCFullYear, getUTCMonth, getUTCDate, getUTCDay, DateFromTime,
    MonthFromTime, DayWithinYear, InLeapYear, YearFromTime, WeekDay.
  by rewrite E.
Qed.

Lemma getISOWeek_Day t t' : Day t = Day t' -> getISOWeek t = getISOWeek t'.
Proof.
  intros (Ey & Em & Ed & _)%fields_Day. unfold getISOWeek.
  by rewrite Ey, Em, Ed.
Qed.

Lemma calcThisWeekStamp_Day now now' :
  Day now = Day now' -> calcThisWeekStamp now = calcThisWeekStamp now'.
Proof.
  intros E. pose proof (fields_Day _ _ E) as (_ & _ & _ & Ew).
  unfold calcThisWeekStamp. rewrite <- Ew.
  set (k := (7 - getUTCDay now) mod 7).
  assert (Day (setUTCDate now (getUTCDate now + k))
          = Day (setUTCDate now' (getUTCDate now' + k))) as Es
    by (rewrite !Day_setUTCDate; lia).
  pose proof (fields_Day _ _ Es) as (-> & -> & -> & _).
  by rewrite (getISOWeek_Day _ _ Es).
Qed.

Lemma TimeWithinDay_UTC year month date :
  TimeWithinDay (UTC year month date) = 0.
Proof.
  unfold UTC, MakeDate, TimeWithinDay. rewrite Z.add_0_r.
  apply Z_mod_mult.
Qed.

Lemma TimeWithinDay_setUTCDate t date :
  TimeWithinDay (setUTCDate t date) = TimeWithinDay t.
Proof.
  unfold setUTCDate, MakeDate, TimeWithinDay.
  rewrite Z.add_comm, Z_mod_plus_full. apply Z.mod_mod. discriminate.
Qed.

(** Two midnights are a whole number of days apart, so the division by
    86400000 in [getISOWeek] is exact. *)
Lemma midnights_apart a b :
  TimeWithinDay a = 0 -> TimeWithinDay b = 0 -> (a - b) mod 86400000 = 0.
Proof.
  unfold TimeWithinDay, msPerDay. intros Ha Hb.
  Z.div_mod_to_equations. lia.
Qed.

(** [ceilDiv7 x] is the least integer that is at least [x / 7]. *)
Lemma ceilDiv7_spec x : 7 * (ceilDiv7 x - 1) < x <= 7 * ceilDiv7 x.
Proof. unfold ceilDiv7. Z.div_mod_to_equations. lia. Qed.

Lemma Day_midnight_plus day ms :
  0 <= ms < msPerDay -> Day (day * msPerDay + ms) = day.
Proof. apply Day_MakeDate. Qed.

Lemma Day_midnight day : Day (day * msPerDay) = day.
Proof.
  rewrite <- (Z.add_0_r (day * msPerDay)). by apply Day_midnight_plus.
Qed.

(** The days until Sunday: between 0 and 6, and 0 on a Sunday; the day they
    lead to is a Sunday. *)
Lemma days_until_sunday now :
  let k := (7 - getUTCDay now) mod 7 in
  0 <= k <= 6 /\ (getUTCDay now = 0 -> k = 0) /\ (Day now + k + 4) mod 7 = 0.
Proof.
  unfold getUTCDay, WeekDay. cbv zeta.
  split_and!; [| |intros ->; reflexivity|];
    Z.div_mod_to_equations; lia.
Qed.

(** C8. The week stamp of 2024-01-01, a Monday, names the Sunday
    2024-01-07 and week 1 of 2024; that of 2024-12-31, a Tuesday, names the
    Sunday 2025-01-05 and week 1 of 2025, at whatever time of those days the
    clock is read.  For every instant the date of the stamp is [k] days
    after today, where [k] is between 0 and 6, is 0 when today is a Sunday,
    and leads to a Sunday: the stamp names today when today is a Sunday and
    the next Sunday otherwise. *)
Theorem calcThisWeekStamp_correct :
  (forall ms, 0 <= ms < msPerDay ->
     let now := UTC 2024 0 1 + ms in
     getUTCDay now = 1
     /\ sundayStr (calcThisWeekStamp now) = lit "2024-01-07"
     /\ isoYear (calcThisWeekStamp now) = 2024
     /\ isoWeek (calcThisWeekStamp now) = 1)
  /\ (forall ms, 0 <= ms < msPerDay ->
     let now := UTC 2024 11 31 + ms in
     getUTCDay now = 2
     /\ sundayStr (calcThisWeekStamp now) = lit "2025-01-05"
     /\ isoYear (calcThisWeekStamp now) = 2025
     /\ isoWeek (calcThisWeekStamp now) = 1)
  /\ (forall now,
     let k := (7 - getUTCDay now) mod 7 in
     0 <= k <= 6
     /\ (getUTCDay now = 0 -> k = 0)
     /\ WeekDay ((Day now + k) * msPerDay) = 0
     /\ sundayStr (calcThisWeekStamp now) = dateString (Day now + k)).
Proof.
  split_and!.
  - intros ms Hms now.
    assert (Day now = Day (UTC 2024 0 1)) as E.
    { unfold now. change (UTC 2024 0 1) with (19723 * msPerDay).
      by rewrite Day_midnight_plus, Day_midnight. }
    rewrite (calcThisWeekStamp_Day _ _ E).
    destruct (fields_Day _ _ E) as (_ & _ & _ & ->).
    by vm_compute.
  - intros ms Hms now.
    assert (Day now = Day (UTC 2024 11 31)) as E.
    { unfold now. change (UTC 2024 11 31) with (20088 * msPerDay).
      by rewrite Day_midnight_plus, Day_midnight. }
    rewrite (calcThisWeekStamp_Day _ _ E).
    destruct (fields_Day _ _ E) as (_ & _ & _ & ->).
    by vm_compute.
  - intros now k.
    destruct (days_until_sunday now) as (Hk & H0 & Hs). fold k in Hk, H0, Hs.
    split_and!; [lia|lia|done| |].
    + unfold WeekDay. by rewrite Day_midnight.
    + assert (Day (setUTCDate now (getUTCDate now + k))
              = Day ((Day now + k) * msPerDay)) as E
        by by rewrite Day_setUTCDate, Day_midnight.
      destruct (fields_Day _ _ E) as (Ey & Em & Ed & _).
      unfold calcThisWeekStamp, dateString. fold k. cbn [sundayStr].
      by rewrite Ey, Em, Ed.
Qed.

Lemma calcThisWeekStamp_correct_witness :
  let now := UTC 2024 0 1 + 3600000 in
  getUTCDay now = 1
  /\ sundayStr (calcThisWeekStamp now) = lit "2024-01-07"
  /\ isoYear (calcThisWeekStamp now) = 2024
  /\ isoWeek (calcThisWeekStamp now) = 1.
Proof.
  apply (proj1 calcThisWeekStamp_correct 3600000). unfold msPerDay. lia.
Defined.

End DateFacts.

(** ** The repository lister *)

Section Lister.
Context `{Platform}.
Implicit Types (token : jsstring) (h : History) (full : list (list Repo)).

Lemma bind_fetch {B} (req : Request) (k : Response -> IO B) h :
  (fetch req ≫= k) h =
  match remote (h ++ [req]) with
  | Normal res => k res (h ++ [req])
  | Throw e => (Throw e, h ++ [req])
  end.
Proof. reflexivity. Qed.

Lemma bind_lift {A B} (c : Completion A) (k : A -> IO B) h :
  (lift c ≫= k) h =
  match c with
  | Normal a => k a h
  | Throw e => (Throw e, h)
  end.
Proof. by destruct c. Qed.

Lemma fetchPage_batch token page h res batch :
  remote (h ++ [pageRequest token page]) = Normal res ->
  answersBatch res batch ->
  fetchPage token page h = (Normal batch, h ++ [pageRequest token page]).
Proof.
  intros Hres [Hok Hjson]. unfold fetchPage.
  rewrite bind_fetch, Hres, Hok. cbn [negb].
  by rewrite bind_lift, Hjson.
Qed.

Lemma fetchPage_not_ok token page h res :
  remote (h ++ [pageRequest token page]) = Normal res ->
  res_ok res = false ->
  fetchPage token page h =
  (Throw (Error (lit "获取仓库失败: " ++ String_of_Z (res_status res)
                 ++ lit " " ++ res_text res)),
   h ++ [pageRequest token page]).
Proof.
  intros Hres Hok. unfold fetchPage.
  by rewrite bind_fetch, Hres, Hok.
Qed.

(** As long as the pages are full the loop goes on: after the full pages
    [full] it is at the next page, with their items collected in order. *)
Lemma fetchAllRepos_loop_full full : forall fuel token page acc h,
  (forall i batch, full !! i = Some batch ->
     exists res,
       remote (h ++ (pageRequest token <$> pagesFrom page (S i))) = Normal res
       /\ answersBatch res batch
       /\ (perPage <= Z.of_nat (length batch))%Z) ->
  fetchAllRepos_loop (length full + fuel) token page acc h =
  fetchAllRepos_loop fuel token (page + Z.of_nat (length full))%Z
    (acc ++ concat full)
    (h ++ (pageRequest token <$> pagesFrom page (length full))).
Proof.
  induction full as [|batch full IH]; intros fuel token page acc h Hfull.
  - simpl. by rewrite Z.add_0_r, !app_nil_r.
  - destruct (Hfull 0%nat batch eq_refl) as (res & Hres & Hans & Hlen).
    simpl pagesFrom in Hres. simpl length. simpl fetchAllRepos_loop.
    rewrite (fetchPage_batch _ _ _ _ _ Hres Hans).
    destruct (Z.ltb_spec (Z.of_nat (length batch)) perPage) as [?|_]; [lia|].
    rewrite IH.
    + f_equal; [lia| |].
      * simpl. by rewrite <- app_assoc.
      * simpl. by rewrite <- app_assoc.
    + intros i b Hi. destruct (Hfull (S i) b Hi) as (r & Hr & Hr').
      exists r. split; [|done]. rewrite <- Hr. simpl.
      by rewrite <- app_assoc.
Qed.

Lemma pageRequests_S token n :
  pageRequests token (S n) =
  pageRequests token n ++ [pageRequest token (1 + Z.of_nat n)%Z].
Proof.
  unfold pageRequests. generalize 1%Z as p.
  induction n as [|n IH]; intros p.
  - simpl. by rewrite Z.add_0_r.
  - change (pagesFrom p (S (S n))) with (p :: pagesFrom (p + 1) (S n)).
    rewrite fmap_cons, IH.
    change (pagesFrom p (S n)) with (p :: pagesFrom (p + 1) n).
    rewrite fmap_cons.
    replace (p + 1 + Z.of_nat n)%Z with (p + Z.of_nat (S n))%Z by lia.
    reflexivity.
Qed.

(** C10. The lister asks for page 1, 2, ... with [per_page=100].  When the
    pages 1 to [n] are full (at least 100 items) and page [n + 1] is short,
    it stops after exactly these [n + 1] requests and returns the items of
    all the pages in the order of the requests.  When instead the answer to
    page [n + 1] is not a success, it throws an error whose message has the
    status and the body of that answer, and returns no list. *)
Theorem fetchAllRepos_pagination token h full res fuel :
  (forall i batch, full !! i = Some batch ->
     exists r,
       remote (h ++ pageRequests token (S i)) = Normal r
       /\ answersBatch r batch
       /\ (perPage <= Z.of_nat (length batch))%Z) ->
  remote (h ++ pageRequests token (S (length full))) = Normal res ->
  (length full < fuel)%nat ->
  (forall batch,
     answersBatch res batch -> (Z.of_nat (length batch) < perPage)%Z ->
     fetchAllRepos fuel token h =
     Some (Normal (concat full ++ batch),
           h ++ pageRequests token (S (length full))))
  /\ (res_ok res = false ->
      fetchAllRepos fuel token h =
      Some (Throw (Error (lit "获取仓库失败: " ++ String_of_Z (res_status res)
                          ++ lit " " ++ res_text res)),
            h ++ pageRequests token (S (length full))))
  /\ (forall page,
      pageRequest token page =
      {| rq_method := GET;
         rq_url := lit "https://api.github.com/user/repos?per_page=100&page="
                   ++ String_of_Z page;
         rq_headers := apiHeaders token;
         rq_body := None |}).
Proof.
  intros Hfull Hres Hfuel.
  assert (exists fuel', fuel = (length full + S fuel')%nat) as [fuel' ->]
    by (exists (fuel - length full - 1)%nat; lia).
  rewrite pageRequests_S, app_assoc in Hres.
  split_and!.
  - intros batch Hans Hshort. unfold fetchAllRepos.
    rewrite (fetchAllRepos_loop_full full (S fuel') token 1 [] h Hfull).
    simpl fetchAllRepos_loop. fold (pageRequests token (length full)).
    rewrite (fetchPage_batch _ _ _ _ _ Hres Hans).
    destruct (Z.ltb_spec (Z.of_nat (length batch)) perPage) as [_|?]; [|lia].
    by rewrite pageRequests_S, (app_assoc h).
  - intros Hok. unfold fetchAllRepos.
    rewrite (fetchAllRepos_loop_full full (S fuel') token 1 [] h Hfull).
    simpl fetchAllRepos_loop. fold (pageRequests token (length full)).
    rewrite (fetchPage_not_ok _ _ _ _ Hres Hok).
    by rewrite pageRequests_S, (app_assoc h).
  - intros page. reflexivity.
Qed.

End Lister.

(** ** The document updater and the orchestrator *)

Section Orchestrator.
Context `{Platform}.
Implicit Types (token : jsstring) (h : History) (repos : list Repo).

Lemma visitRepo_entry token stampInfo repo h :
  visitRepo token stampInfo repo h =
  (Normal (entryOf repo
     (updateReadmeForRepo token (owner_login repo) (repo_name repo)
        stampInfo h).1),
   (updateReadmeForRepo token (owner_login repo) (repo_name repo)
      stampInfo h).2).
Proof.
  unfold visitRepo, tryCatch, mbind, IO_bind.
  by destruct (updateReadmeForRepo _ _ _ _ h) as [[[|]|e] h'].
Qed.

(** The loop over the repositories never throws: it ends with one entry per
    repository. *)
Lemma forEachRepo_visits token stampInfo repos : forall acc h,
  exists summary h',
    forEachRepo token stampInfo repos acc h = (Normal (acc ++ summary), h')
    /\ Visits token stampInfo repos h summary h'.
Proof.
  induction repos as [|repo repos IH]; intros acc h.
  - exists [], h. rewrite app_nil_r. split; [done|constructor].
  - simpl forEachRepo. unfold mbind at 1, IO_bind at 1.
    rewrite visitRepo_entry.
    destruct (updateReadmeForRepo token (owner_login repo) (repo_name repo)
                stampInfo h) as [c h1] eqn:E.
    cbn [fst snd].
    destruct (IH (acc ++ [entryOf repo c]) h1) as (summary & h2 & E2 & V).
    exists (entryOf repo c :: summary), h2. split.
    + rewrite E2. by rewrite <- app_assoc.
    + by econstructor.
Qed.

Lemma Visits_length token stampInfo repos h summary h' :
  Visits token stampInfo repos h summary h' ->
  length summary = length repos.
Proof. induction 1; simpl; congruence. Qed.

Lemma entryOf_repo repo c : se_repo (entryOf repo c) = fullName repo.
Proof. by destruct c as [[|]|e]. Qed.

Lemma Visits_names token stampInfo repos h summary h' :
  Visits token stampInfo repos h summary h' ->
  se_repo <$> summary = fullName <$> repos.
Proof.
  induction 1 as [|repo repos h c h1 summary h2 _ _ IH]; [done|].
  by rewrite !fmap_cons, IH, entryOf_repo.
Qed.

(** C9. Once the listing has returned the repositories [repos], the run
    returns a summary and does not throw, whatever the document updater
    does: the summary has one entry per repository, in the order of the
    listing, under the name of its repository; the entry of a repository is
    [updated], [skipped] or [error] with the text of the error, according
    to the outcome of the document updater for that repository alone, and
    the repositories after a failing one are still visited. *)
Theorem updateAllRepos_isolates fuel now token repos h h1 :
  isEmpty token = false ->
  fetchAllRepos fuel token h = Some (Normal repos, h1) ->
  exists summary h2,
    updateAllRepos fuel now {| GITHUB_TOKEN := Some token |} h
    = Some (Normal {| rr_stampInfo := calcThisWeekStamp now;
                      rr_summary := summary |}, h2)
    /\ length summary = length repos
    /\ se_repo <$> summary = fullName <$> repos
    /\ Visits token (calcThisWeekStamp now) repos h1 summary h2.
Proof.
  intros Htoken Hlist.
  destruct (forEachRepo_visits token (calcThisWeekStamp now) repos [] h1)
    as (summary & h2 & E & V).
  exists summary, h2. split_and!.
  - unfold updateAllRepos. cbn [GITHUB_TOKEN]. by rewrite Htoken, Hlist, E.
  - by eapply Visits_length.
  - by eapply Visits_names.
  - done.
Qed.

End Orchestrator.

(** ** The document updater never skips a README that exists *)

Section Updater.
Context `{Platform}.

Lemma updateReadmeForRepo_skips_only_missing token owner repo stampInfo h h' :
  updateReadmeForRepo token owner repo stampInfo h = (Normal false, h') ->
  exists res,
    remote (h ++ [readmeRequest token owner repo]) = Normal res
    /\ res_status res = 404%Z
    /\ h' = h ++ [readmeRequest token owner repo].
Proof.
  unfold updateReadmeForRepo. rewrite bind_fetch.
  destruct (remote (h ++ [readmeRequest token owner repo])) as [res|e];
    [|done].
  destruct (Z.eqb_spec (res_status res) 404) as [E404|_].
  { intros [= <-]. by exists res. }
  destruct (res_ok res); cbn [negb]; [|done].
  rewrite bind_lift. destruct (res_json res) as [[batch|data|]|e]; try done.
  rewrite bind_lift. destruct (fromBase64 (rd_content data)) as [c|e]; [|done].
  rewrite bool_decide_eq_false_2 by apply applyStamp_never_fixed.
  rewrite bind_lift. destruct (encodeURIComponent _) as [p|e]; [|done].
  rewrite bind_lift. destruct (toBase64 _) as [b|e]; [|done].
  rewrite bind_fetch. destruct (remote _) as [res'|e]; [|done].
  by destruct (res_ok res').
Qed.

End Updater.

(** ** The account of the examples *)

Section Examples.

(** The run over the three repositories: [alpha] is updated, the conflict
    on [beta] becomes the error entry of [beta], and [gamma], which comes
    after it, is still visited and skipped. *)
Lemma updateAllRepos_three_repositories :
  exists h,
    @updateAllRepos Demo.platform 3 Demo.now
      {| GITHUB_TOKEN := Some Demo.token |} []
    = Some (Normal
        {| rr_stampInfo := calcThisWeekStamp Demo.now;
           rr_summary :=
             [ {| se_repo := lit "octo/alpha"; se_status := lit "updated";
                  se_error := None |};
               {| se_repo := lit "octo/beta"; se_status := lit "error";
                  se_error := Some (lit
                    "Error: 更新 README 失败: 409 README.md does not match sha-b") |};
               {| se_repo := lit "octo/gamma"; se_status := lit "skipped";
                  se_error := None |} ] |}, h).
Proof. eexists. vm_compute. reflexivity. Qed.

Lemma updateAllRepos_isolates_witness :
  exists summary h2,
    @updateAllRepos Demo.platform 3 Demo.now
      {| GITHUB_TOKEN := Some Demo.token |} []
    = Some (Normal {| rr_stampInfo := calcThisWeekStamp Demo.now;
                      rr_summary := summary |}, h2)
    /\ length summary = length [Demo.alpha; Demo.beta; Demo.gamma]
    /\ se_repo <$> summary = fullName <$> [Demo.alpha; Demo.beta; Demo.gamma]
    /\ @Visits Demo.platform Demo.token (calcThisWeekStamp Demo.now)
         [Demo.alpha; Demo.beta; Demo.gamma] [pageRequest Demo.token 1]
         summary h2.
Proof.
  apply (@updateAllRepos_isolates Demo.platform 3 Demo.now Demo.token
           [Demo.alpha; Demo.beta; Demo.gamma] [] [pageRequest Demo.token 1]).
  - reflexivity.
  - vm_compute. reflexivity.
Defined.

Lemma fetchAllRepos_pagination_witness :
  @fetchAllRepos Demo.pagedPlatform 3 Demo.token []
  = Some (Normal (concat [replicate 100 Demo.alpha] ++ [Demo.beta]),
          [] ++ pageRequests Demo.token 2).
Proof.
  destruct (@fetchAllRepos_pagination Demo.pagedPlatform Demo.token []
              [replicate 100 Demo.alpha]
              {| res_status := 200; res_text := lit "[...]";
                 res_json := Normal (JRepos [Demo.beta]) |} 3)
    as (Hshort & _ & _).
  - intros i batch Hi. destruct i as [|i]; [|done]. injection Hi as <-.
    eexists. split; [reflexivity|]. split; [by split|].
    by vm_compute.
  - reflexivity.
  - simpl. lia.
  - apply Hshort; [by split|]. unfold perPage. simpl. lia.
Defined.

(** C2. A README that consists of the label of the week and a final line
    feed: the patched text has one more line feed, so it differs from the
    original, the document updater sends a write and returns [true]
    (updated), not [false] (skipped). *)
Theorem updateReadmeForRepo_rewrites_stamped_readme :
  let stampInfo := calcThisWeekStamp Demo.now in
  stampText stampInfo = exampleLabel
  /\ @fromBase64 Demo.platform
       (lit "5pys5ZGo6K6w5b2VOiAyMDI0LTAxLTA3IMK3IDIwMjTlubTnrKwx5ZGoCg==\n")
     = Normal (exampleLabel ++ lit "\n")
  /\ applyStamp (exampleLabel ++ lit "\n") exampleLabel
     = exampleLabel ++ lit "\n\n"
  /\ @updateReadmeForRepo Demo.platform Demo.token (lit "octo") (lit "stamped")
       stampInfo []
     = (Normal true,
        [ readmeRequest Demo.token (lit "octo") (lit "stamped");
          writeRequest Demo.token (lit "octo") (lit "stamped") (lit "README.md")
            {| pb_message := lit "chore: update weekly stamp (2024-01-07)";
               pb_content := lit
                 "5pys5ZGo6K6w5b2VOiAyMDI0LTAxLTA3IMK3IDIwMjTlubTnrKwx5ZGoCgo=";
               pb_sha := lit "sha-s" |} ]).
Proof. cbv zeta. split_and!; vm_compute; reflexivity. Qed.

End Examples.

(** ** More on the marker patcher *)

Section PatcherMore.
Implicit Types (d l L : jsstring) (ls pre blanks : list jsstring).

(** Where [stampLines] puts the label does not depend on the label. *)
Lemma stampLines_shape ls :
  exists pre blanks,
    Forall blank blanks /\ forall L, stampLines ls L = pre ++ L :: blanks.
Proof.
  destruct (last_nonblank_split ls) as [Hb|(pre & l & blanks & -> & Hl & Hb)].
  - exists ls, []. split; [done|]. intros L. unfold stampLines.
    by rewrite skipBlankTail_all_blank.
  - destruct (isMarker l) eqn:Hm.
    + exists pre, blanks. split; [done|]. intros L.
      by apply stampLines_replace.
    + exists (pre ++ l :: blanks), []. split; [done|]. intros L.
      unfold stampLines. rewrite skipBlankTail_last by done.
      unfold line_at. rewrite list_lookup_middle by done. simpl.
      fold (isMarker l). by rewrite Hm.
Qed.

Lemma lastNonBlank_inv d old :
  lastNonBlank d = Some old ->
  exists pre blanks,
    lines d = pre ++ old :: blanks /\ isBlank old = false
    /\ Forall blank blanks.
Proof.
  intros E.
  destruct (last_nonblank_split (lines d))
    as [Hb|(pre & l & blanks & El & Hl & Hb)].
  - unfold lastNonBlank in E. by rewrite skipBlankTail_all_blank in E.
  - rewrite (lastNonBlank_decomposed d pre l blanks El Hl Hb) in E.
    injection E as <-. by exists pre, blanks.
Qed.

(** X1. A document that was stamped with one label and is stamped again
    with another: the new label takes the place of the old one, it is not
    added to it.  The result is the one of stamping the original document
    with the new label, followed by one more line feed. *)
Theorem applyStamp_restamp d L1 L2 :
  goodLabel L1 -> last L1 <> Some CR ->
  Forall (fun l => last l <> Some CR) (lines d) ->
  applyStamp (applyStamp d L1) L2 = applyStamp d L2 ++ [LF].
Proof.
  intros [Hm HLF] HCR Hd.
  rewrite (applyStamp_unfold (applyStamp d L1) L2).
  rewrite (applyStamp_unfold d L1), (applyStamp_unfold d L2).
  assert (Forall (fun l => LF ∉ l) (stampLines (lines d) L1)) as Hno
    by (apply stampLines_Forall; [apply lines_noLF|done]).
  assert (Forall (fun l => last l <> Some CR) (stampLines (lines d) L1)) as Hcr
    by by apply stampLines_Forall.
  rewrite lines_join_LF by (done || apply stampLines_nonempty).
  replace (chopCR <$> stampLines (lines d) L1) with (stampLines (lines d) L1).
  2:{ symmetry. rewrite <- (list_fmap_id (stampLines (lines d) L1)) at 2.
      apply Forall_fmap_ext_1. eapply Forall_impl; [exact Hcr|].
      intros l Hl. by apply chopCR_id. }
  destruct (stampLines_shape (lines d)) as (pre & blanks & Hb & E).
  rewrite !E. rewrite <- app_assoc, <- app_comm_cons.
  rewrite stampLines_replace.
  - rewrite app_comm_cons, app_assoc. by rewrite join_snoc by by destruct pre.
  - by apply isMarker_not_blank.
  - done.
  - apply Forall_app. split; [done|]. by apply Forall_singleton.
Qed.

Lemma applyStamp_restamp_witness :
  applyStamp (applyStamp (lit "# Title\r\n\r\ntext\r\n") exampleLabel)
    (lit "本周记录: 2024-01-14 · 2024年第2周")
  = applyStamp (lit "# Title\r\n\r\ntext\r\n")
      (lit "本周记录: 2024-01-14 · 2024年第2周") ++ [LF].
Proof.
  apply applyStamp_restamp.
  - apply exampleLabel_good.
  - by vm_compute.
  - apply (bool_decide_unpack _). by vm_compute.
Defined.

(** X2. The replace case in general: when the last non-blank line of the
    document starts with the marker token, the label takes its place; the
    lines before it and the blank lines after it stay as they are and the
    number of lines does not change. *)
Theorem applyStamp_replace d L old :
  lastNonBlank d = Some old -> isMarker old = true ->
  exists pre blanks,
    lines d = pre ++ old :: blanks
    /\ Forall blank blanks
    /\ stampLines (lines d) L = pre ++ L :: blanks
    /\ applyStamp d L = join (pre ++ L :: blanks) ++ [LF]
    /\ length (stampLines (lines d) L) = length (lines d).
Proof.
  intros (pre & blanks & E & Hold & Hb)%lastNonBlank_inv Hm.
  exists pre, blanks.
  assert (stampLines (lines d) L = pre ++ L :: blanks) as Es
    by (rewrite E; by apply stampLines_replace).
  split_and!; [done..| |].
  - by rewrite applyStamp_unfold, Es.
  - rewrite Es, E, !length_app. reflexivity.
Qed.

Lemma applyStamp_replace_witness :
  exists pre blanks,
    lines (lit "a\n本周记录: old\n\n") = pre ++ lit "本周记录: old" :: blanks
    /\ Forall blank blanks
    /\ stampLines (lines (lit "a\n本周记录: old\n\n")) exampleLabel
       = pre ++ exampleLabel :: blanks
    /\ applyStamp (lit "a\n本周记录: old\n\n") exampleLabel
       = join (pre ++ exampleLabel :: blanks) ++ [LF]
    /\ length (stampLines (lines (lit "a\n本周记录: old\n\n")) exampleLabel)
       = length (lines (lit "a\n本周记录: old\n\n")).
Proof. apply applyStamp_replace; reflexivity. Defined.

Lemma applyStamp_lastNonBlank d L :
  isBlank L = false -> LF ∉ L ->
  lastNonBlank (applyStamp d L) = Some (chopCR L).
Proof.
  intros HL HLF.
  destruct (stampLines_shape (lines d)) as (pre & blanks & Hb & E).
  eapply (lastNonBlank_decomposed _ (chopCR <$> pre) (chopCR L)
            ((chopCR <$> blanks) ++ [[]])).
  - rewrite applyStamp_unfold.
    rewrite lines_join_LF;
      [|apply stampLines_nonempty
       |apply stampLines_Forall; [apply lines_noLF|done]].
    by rewrite E, fmap_app, fmap_cons, <- app_assoc.
  - by rewrite isBlank_chopCR.
  - apply Forall_app. split; [|by apply Forall_singleton].
    apply Forall_fmap. eapply Forall_impl; [exact Hb|].
    intros l Hl. simpl. by rewrite isBlank_chopCR.
Qed.

(** X3. After the patcher ran with a label that is one non-blank line, the
    label is the last non-blank line of the result, as the patcher reads
    it (a final carriage return of the label is read as part of the line
    end), and the result ends with a line feed. *)
Theorem applyStamp_label_last d L :
  isBlank L = false -> LF ∉ L ->
  lastNonBlank (applyStamp d L) = Some (chopCR L)
  /\ last (applyStamp d L) = Some LF.
Proof.
  intros HL HLF. split; [by apply applyStamp_lastNonBlank|].
  rewrite applyStamp_unfold. apply last_snoc.
Qed.

Lemma applyStamp_label_last_witness :
  lastNonBlank (applyStamp (lit "# Title\n") exampleLabel)
  = Some (chopCR exampleLabel)
  /\ last (applyStamp (lit "# Title\n") exampleLabel) = Some LF.
Proof.
  apply applyStamp_label_last.
  - reflexivity.
  - apply exampleLabel_good.
Defined.

Lemma countLF_join_exact ls :
  ls <> [] -> S (countLF (join ls)) = (countLF (concat ls) + length ls)%nat.
Proof.
  induction ls as [|l ls IH]; [done|]. intros _.
  destruct ls as [|l' ls].
  - simpl. rewrite app_nil_r. lia.
  - rewrite join_cons by done.
    change (concat (l :: l' :: ls)) with (l ++ concat (l' :: ls)).
    rewrite !countLF_app, countLF_cons, Z.eqb_refl.
    specialize (IH ltac:(done)). simpl length in *. lia.
Qed.

Lemma countLF_concat_noLF ls :
  Forall (fun l => LF ∉ l) ls -> countLF (concat ls) = 0%nat.
Proof.
  induction 1 as [|l ls Hl _ IH]; [done|].
  simpl. rewrite countLF_app, IH, Nat.add_0_r.
  clear -Hl. induction l as [|c l IHl]; [done|].
  apply not_elem_of_cons in Hl as [Hc Hl]. rewrite countLF_cons, IHl by done.
  by destruct (Z.eqb_spec c LF) as [->|_].
Qed.

(** X4. How much the text grows: the result has the line feeds of the
    document and of the label and one more when the last non-blank line was
    a marker line (it is replaced), two more otherwise (the label is
    pushed).  So the patcher never returns a text with as few line feeds as
    its input. *)
Theorem applyStamp_line_feeds d L :
  countLF (applyStamp d L) =
  (countLF d + countLF L +
   match lastNonBlank d with
   | Some old => if isMarker old then 1 else 2
   | None => 2
   end)%nat.
Proof.
  rewrite applyStamp_unfold, countLF_app. change (countLF [LF]) with 1%nat.
  pose proof (countLF_join_exact (stampLines (lines d) L)
                (stampLines_nonempty _ _)) as Hj.
  pose proof (lines_length d) as Hlen.
  pose proof (lines_noLF d) as Hno.
  destruct (last_nonblank_split (lines d))
    as [Hb|(pre & l & blanks & E & Hl & Hb)].
  - assert (lastNonBlank d = None) as ->
      by (unfold lastNonBlank; by rewrite skipBlankTail_all_blank).
    assert (stampLines (lines d) L = lines d ++ [L]) as Es
      by (unfold stampLines; by rewrite skipBlankTail_all_blank).
    rewrite Es in Hj |- *.
    rewrite concat_app, countLF_app, countLF_concat_noLF, length_app
      in Hj by done.
    simpl in Hj. rewrite app_nil_r in Hj. lia.
  - rewrite (lastNonBlank_decomposed d pre l blanks E Hl Hb).
    rewrite E in Hno. apply Forall_app in Hno as [Hpre Hrest].
    apply Forall_cons in Hrest as [_ Hblanks].
    destruct (isMarker l) eqn:Hm.
    + rewrite E, stampLines_replace in Hj |- * by done.
      rewrite E, length_app in Hlen.
      rewrite concat_app, concat_cons, !countLF_app, !countLF_concat_noLF,
        length_app in Hj by done.
      simpl length in *. lia.
    + assert (stampLines (lines d) L = lines d ++ [L]) as Es.
      { rewrite E. unfold stampLines. rewrite skipBlankTail_last by done.
        unfold line_at. rewrite list_lookup_middle by done. simpl.
        fold (isMarker l). by rewrite Hm. }
      rewrite Es in Hj |- *.
      rewrite concat_app, countLF_app, countLF_concat_noLF, length_app
        in Hj by apply lines_noLF.
      simpl in Hj. rewrite app_nil_r in Hj. lia.
Qed.

End PatcherMore.

(** ** The label of the week stamp calculator *)

Section Label.
Import JSDate.

Lemma string_of_uint_units u :
  Forall isNumeralUnit (bytes_of (DecimalString.NilEmpty.string_of_uint u)).
Proof.
  unfold isNumeralUnit.
  induction u as [|u IH|u IH|u IH|u IH|u IH|u IH|u IH|u IH|u IH|u IH];
    simpl; [constructor|..];
    (constructor; [right; vm_compute; by split|exact IH]).
Qed.

(** [String(n)] is made of digits and, for a negative [n], a minus sign. *)
Lemma String_of_Z_units n : Forall isNumeralUnit (String_of_Z n).
Proof.
  assert (forall u, Forall isNumeralUnit
            (bytes_of (DecimalString.NilZero.string_of_uint u))) as Hu.
  { intros u. unfold DecimalString.NilZero.string_of_uint.
    destruct u; try apply string_of_uint_units.
    apply Forall_singleton. right. vm_compute. by split. }
  unfold String_of_Z, DecimalString.NilZero.string_of_int.
  destruct (Z.to_int n) as [u|u]; [apply Hu|].
  apply (Forall_cons isNumeralUnit 45%Z). split; [by left|apply Hu].
Qed.

Lemma padStart_Forall (P : Z -> Prop) s n fill :
  Forall P s -> Forall P fill -> Forall P (padStart s n fill).
Proof.
  intros Hs Hf. unfold padStart.
  destruct (n <=? length s)%nat; [done|]. destruct (isEmpty fill); [done|].
  apply Forall_app. split; [|done]. unfold repeatString.
  apply Forall_take. generalize (n - length s)%nat at 1. intros k.
  induction k as [|k IH]; [constructor|]. simpl.
  apply Forall_app. by split.
Qed.

Lemma numeral_noBreak s : Forall isNumeralUnit s -> Forall noBreak s.
Proof.
  intros H. eapply Forall_impl; [exact H|].
  unfold isNumeralUnit, LF, CR. intros c Hc. lia.
Qed.

Lemma literal_noBreak s :
  forallb (fun c => negb (c =? LF)%Z && negb (c =? CR)%Z) s = true ->
  Forall noBreak s.
Proof.
  intros H. apply Forall_forall. intros c Hc%list_elem_of_In.
  rewrite forallb_forall in H. specialize (H c Hc).
  apply andb_prop in H as [H1 H2]. apply negb_true_iff in H1, H2.
  split; by apply Z.eqb_neq.
Qed.

Lemma stampText_noBreak now : Forall noBreak (stampText (calcThisWeekStamp now)).
Proof.
  unfold calcThisWeekStamp. cbn [stampText].
  repeat (apply Forall_app; split);
    try (apply literal_noBreak; reflexivity);
    try (apply numeral_noBreak, String_of_Z_units);
    apply padStart_Forall;
    try (apply literal_noBreak; reflexivity);
    apply numeral_noBreak, String_of_Z_units.
Qed.

Lemma startsWith_app p s : startsWith (p ++ s) p = true.
Proof.
  induction p as [|c p IH]; [by destruct s|].
  rewrite <- app_comm_cons, startsWith_cons, Z.eqb_refl. exact IH.
Qed.

Lemma stampText_isMarker now :
  isMarker (stampText (calcThisWeekStamp now)) = true.
Proof. unfold calcThisWeekStamp. cbn [stampText]. apply startsWith_app. Qed.

Lemma stampText_good now :
  goodLabel (stampText (calcThisWeekStamp now))
  /\ last (stampText (calcThisWeekStamp now)) <> Some CR.
Proof.
  pose proof (stampText_noBreak now) as Hnb. rewrite Forall_forall in Hnb.
  split; [split|].
  - apply stampText_isMarker.
  - intros Hin. by destruct (Hnb _ Hin).
  - intros Hl. apply last_Some_elem_of in Hl. by destruct (Hnb _ Hl).
Qed.

(** X5. The label that the week stamp calculator makes is, at every
    instant, one line that starts with the marker token, without line feed
    or carriage return.  So the patcher recognises it on the next run:
    after the patcher ran with it, it is the last non-blank line of the
    result, and a document without a marker line above its last non-blank
    line has exactly one marker line afterwards. *)
Theorem calcThisWeekStamp_label now :
  let L := stampText (calcThisWeekStamp now) in
  isMarker L = true /\ (LF ∉ L) /\ (CR ∉ L)
  /\ (forall d, lastNonBlank (applyStamp d L) = Some L)
  /\ (forall d, markerOnlyLast d = true -> markerCount (applyStamp d L) = 1%nat).
Proof.
  intros L. destruct (stampText_good now) as [[Hm HLF] HCR]. fold L in Hm, HLF, HCR.
  pose proof (stampText_noBreak now) as Hnb. rewrite Forall_forall in Hnb.
  split_and!; [done|done| | |].
  - intros Hin. by destruct (Hnb _ Hin).
  - intros d. rewrite applyStamp_lastNonBlank; [|by apply isMarker_not_blank|done].
    by rewrite chopCR_id.
  - intros d Hd. by apply TailStamped_count, applyStamp_TailStamped.
Qed.

Lemma calcThisWeekStamp_label_witness :
  markerCount (applyStamp (lit "# Title\n")
                 (stampText (calcThisWeekStamp Demo.now))) = 1%nat.
Proof.
  apply (proj2 (proj2 (proj2 (proj2 (calcThisWeekStamp_label Demo.now))))).
  reflexivity.
Defined.

End Label.

(** ** The ISO week *)

Section IsoWeek.
Import JSDate.
Local Open Scope Z_scope.

Lemma DayFromYear_lt y y' : y < y' -> DayFromYear y < DayFromYear y'.
Proof. unfold DayFromYear. intros H. Z.div_mod_to_equations. lia. Qed.

Lemma DayFromYear_le y y' : y <= y' -> DayFromYear y <= DayFromYear y'.
Proof. unfold DayFromYear. intros H. Z.div_mod_to_equations. lia. Qed.

Lemma YearFromDay_unique d y :
  DayFromYear y <= d < DayFromYear (y + 1) -> YearFromDay d = y.
Proof.
  intros Hy. pose proof (YearFromDay_spec d) as Hs.
  destruct (Z.lt_trichotomy (YearFromDay d) y) as [Hlt|[E|Hgt]]; [|done|].
  - pose proof (DayFromYear_le (YearFromDay d + 1) y). lia.
  - pose proof (DayFromYear_le (y + 1) (YearFromDay d)). lia.
Qed.

Lemma YearFromDay_ge d y : DayFromYear y <= d -> y <= YearFromDay d.
Proof.
  intros Hy. pose proof (YearFromDay_spec d) as Hs.
  destruct (Z.le_gt_cases y (YearFromDay d)) as [|Hgt]; [done|].
  pose proof (DayFromYear_le (YearFromDay d + 1) y). lia.
Qed.

Lemma DayFromYear_next y : DayFromYear (y + 1) - DayFromYear y = DaysInYear y.
Proof.
  unfold DayFromYear, DaysInYear.
  repeat match goal with
         | |- context [?a =? ?b] => destruct (Z.eqb_spec a b)
         end; cbn [negb]; Z.div_mod_to_equations; lia.
Qed.

Lemma DaysInYear_range y : 365 <= DaysInYear y <= 366.
Proof.
  unfold DaysInYear.
  repeat match goal with
         | |- context [?a =? ?b] => destruct (Z.eqb_spec a b)
         end; cbn [negb]; lia.
Qed.

Lemma midnight_eq t : TimeWithinDay t = 0 -> t = Day t * msPerDay.
Proof.
  unfold TimeWithinDay, Day, msPerDay. intros H. Z.div_mod_to_equations. lia.
Qed.

(** [Date.UTC] of the calendar fields of [t] is the midnight of the day of
    [t], unless the year is one of the years 0 to 99, which [Date.UTC]
    reads as 1900 to 1999. *)
Lemma UTC_fields t :
  ~ (0 <= getUTCFullYear t <= 99) ->
  UTC (getUTCFullYear t) (getUTCMonth t) (getUTCDate t) = Day t * msPerDay.
Proof.
  intros Hy. unfold UTC.
  replace ((0 <=? getUTCFullYear t) && (getUTCFullYear t <=? 99)) with false
    by (symmetry; apply andb_false_iff; lia).
  unfold getUTCFullYear, getUTCMonth, getUTCDate.
  rewrite <- (Z.add_0_r (DateFromTime t)), MakeDay_roundtrip.
  unfold MakeDate. lia.
Qed.

Lemma UTC_new_year y :
  ~ (0 <= y <= 99) -> UTC y 0 1 = DayFromYear y * msPerDay.
Proof.
  intros Hy. unfold UTC.
  replace ((0 <=? y) && (y <=? 99)) with false
    by (symmetry; apply andb_false_iff; lia).
  unfold MakeDay, MakeDate. change (0 / 12) with 0. change (0 mod 12) with 0.
  rewrite !Z.add_0_r. change (monthStart 0 _) with 0. lia.
Qed.

Lemma isoWeekday_range t : 1 <= isoWeekday t <= 7.
Proof.
  unfold isoWeekday, WeekDay.
  destruct (Z.eqb_spec ((Day t + 4) mod 7) 0); Z.div_mod_to_equations; lia.
Qed.

(** What [getISOWeek] computes for an instant since the epoch. *)
Lemma getISOWeek_formula t :
  0 <= t ->
  getISOWeek t =
  {| iw_isoYear := YearFromDay (thursdayOf t);
     iw_isoWeek :=
       (thursdayOf t - DayFromYear (YearFromDay (thursdayOf t))) / 7 + 1 |}.
Proof.
  intros Ht.
  assert (0 <= Day t) as Hd by (unfold Day, msPerDay; Z.div_mod_to_equations; lia).
  assert (1970 <= getUTCFullYear t) as Hy
    by (apply YearFromDay_ge; change (DayFromYear 1970) with 0; exact Hd).
  pose proof (isoWeekday_range t) as Hw.
  unfold getISOWeek. rewrite UTC_fields by lia.
  set (d0 := Day t * msPerDay).
  assert (Day d0 = Day t) as Ed0 by apply Day_midnight.
  destruct (fields_Day _ _ Ed0) as (_ & _ & _ & Ew).
  rewrite Ew.
  change (if getUTCDay t =? 0 then 7 else getUTCDay t) with (isoWeekday t).
  replace (getUTCDate d0 + 4 - isoWeekday t)
    with (getUTCDate d0 + (4 - isoWeekday t)) by lia.
  set (d1 := setUTCDate d0 (getUTCDate d0 + (4 - isoWeekday t))).
  assert (Day d1 = thursdayOf t) as Ed1.
  { unfold d1. rewrite Day_setUTCDate, Ed0. unfold thursdayOf. lia. }
  assert (d1 = thursdayOf t * msPerDay) as ->.
  { rewrite <- Ed1. apply midnight_eq. unfold d1.
    rewrite TimeWithinDay_setUTCDate. unfold d0, TimeWithinDay.
    apply Z_mod_mult. }
  unfold getUTCFullYear, YearFromTime. rewrite Day_midnight.
  assert (1969 <= YearFromDay (thursdayOf t)) as Hy1.
  { apply YearFromDay_ge. unfold thursdayOf.
    change (DayFromYear 1969) with (-365). lia. }
  rewrite UTC_new_year by lia. f_equal.
  replace (thursdayOf t * msPerDay
           - DayFromYear (YearFromDay (thursdayOf t)) * msPerDay)
    with ((thursdayOf t - DayFromYear (YearFromDay (thursdayOf t)))
          * 86400000) by (unfold msPerDay; lia).
  rewrite Z.div_mul by discriminate.
  unfold ceilDiv7. Z.div_mod_to_equations. lia.
Qed.

(** X6. For every instant since the epoch, [getISOWeek] returns the year
    that contains the Thursday of the Monday-to-Sunday week of the instant
    and, as week number, one plus the number of whole weeks between the
    first day of that year and that Thursday; the week number is between 1
    and 53.  So the seven days of a week get the same year and week. *)
Theorem getISOWeek_thursday t :
  0 <= t ->
  let th := thursdayOf t in
  Day t - 3 <= th <= Day t + 3
  /\ WeekDay (th * msPerDay) = 4
  /\ iw_isoYear (getISOWeek t) = YearFromDay th
  /\ iw_isoWeek (getISOWeek t) = (th - DayFromYear (YearFromDay th)) / 7 + 1
  /\ 1 <= iw_isoWeek (getISOWeek t) <= 53.
Proof.
  intros Ht th. rewrite getISOWeek_formula by done. cbn [iw_isoYear iw_isoWeek].
  fold th. pose proof (isoWeekday_range t) as Hw.
  pose proof (YearFromDay_spec th) as Hs.
  pose proof (DayFromYear_next (YearFromDay th)) as Hn.
  pose proof (DaysInYear_range (YearFromDay th)) as Hr.
  split_and!; [unfold th, thursdayOf; lia..| |done|done| |].
  - unfold WeekDay. rewrite Day_midnight. unfold th, thursdayOf, isoWeekday, WeekDay.
    destruct (Z.eqb_spec ((Day t + 4) mod 7) 0); Z.div_mod_to_equations; lia.
  - Z.div_mod_to_equations. lia.
  - Z.div_mod_to_equations. lia.
Qed.

Lemma getISOWeek_thursday_witness :
  let t := UTC 2027 0 1 in
  let th := thursdayOf t in
  Day t - 3 <= th <= Day t + 3
  /\ WeekDay (th * msPerDay) = 4
  /\ iw_isoYear (getISOWeek t) = YearFromDay th
  /\ iw_isoWeek (getISOWeek t) = (th - DayFromYear (YearFromDay th)) / 7 + 1
  /\ 1 <= iw_isoWeek (getISOWeek t) <= 53.
Proof. apply (getISOWeek_thursday (UTC 2027 0 1)). by vm_compute. Defined.

(** X7. A week later the week number is one more in the same year, or it
    is week 1 of the next year after week 52 or 53: week numbers go up by one
    and start again at 1, and no week is left out. *)
Theorem getISOWeek_next_week t :
  0 <= t ->
  let w := getISOWeek t in
  let w' := getISOWeek (t + 7 * msPerDay) in
  (iw_isoYear w' = iw_isoYear w /\ iw_isoWeek w' = iw_isoWeek w + 1)
  \/ (iw_isoYear w' = iw_isoYear w + 1 /\ iw_isoWeek w' = 1
      /\ 52 <= iw_isoWeek w).
Proof.
  intros Ht.
  assert (thursdayOf (t + 7 * msPerDay) = thursdayOf t + 7) as Eth.
  { unfold thursdayOf, isoWeekday, WeekDay.
    replace (Day (t + 7 * msPerDay)) with (Day t + 7)
      by (unfold Day; rewrite Z.div_add by discriminate; reflexivity).
    replace ((Day t + 7 + 4) mod 7) with ((Day t + 4) mod 7)
      by (Z.div_mod_to_equations; lia).
    lia. }
  cbv zeta. rewrite !getISOWeek_formula by (unfold msPerDay; lia).
  cbn [iw_isoYear iw_isoWeek]. rewrite Eth.
  set (th := thursdayOf t). set (y := YearFromDay th).
  pose proof (YearFromDay_spec th) as Hs. fold y in Hs.
  pose proof (DayFromYear_next y) as Hn.
  pose proof (DaysInYear_range y) as Hr.
  pose proof (DayFromYear_next (y + 1)) as Hn1.
  pose proof (DaysInYear_range (y + 1)) as Hr1.
  destruct (Z.lt_ge_cases (th + 7) (DayFromYear (y + 1))) as [Hsame|Hnext].
  - left. rewrite (YearFromDay_unique (th + 7) y) by lia.
    split; [done|]. Z.div_mod_to_equations. lia.
  - right. replace (y + 1 + 1) with (y + 2) in * by lia.
    rewrite (YearFromDay_unique (th + 7) (y + 1))
      by (replace (y + 1 + 1) with (y + 2) by lia; lia).
    split_and!; [done| |]; Z.div_mod_to_equations; lia.
Qed.

Lemma getISOWeek_next_week_witness :
  let w := getISOWeek (UTC 2024 11 25) in
  let w' := getISOWeek (UTC 2024 11 25 + 7 * msPerDay) in
  (iw_isoYear w' = iw_isoYear w /\ iw_isoWeek w' = iw_isoWeek w + 1)
  \/ (iw_isoYear w' = iw_isoYear w + 1 /\ iw_isoWeek w' = 1
      /\ 52 <= iw_isoWeek w).
Proof. apply (getISOWeek_next_week (UTC 2024 11 25)). by vm_compute. Defined.

(** X8. The week of the stamp is the ISO week of today: the Sunday that the
    calculator moves to is the last day of the Monday-to-Sunday week of the
    instant, so the year and week it reports are those of the instant
    itself. *)
Theorem calcThisWeekStamp_week_of_today now :
  0 <= now ->
  isoYear (calcThisWeekStamp now) = iw_isoYear (getISOWeek now)
  /\ isoWeek (calcThisWeekStamp now) = iw_isoWeek (getISOWeek now).
Proof.
  intros Hnow. unfold calcThisWeekStamp. cbn [isoYear isoWeek].
  set (k := (7 - getUTCDay now) mod 7).
  set (sunday := setUTCDate now (getUTCDate now + k)).
  destruct (days_until_sunday now) as (Hk & H0 & Hs). fold k in Hk, H0, Hs.
  assert (Day sunday = Day now + k) as Ed by apply Day_setUTCDate.
  assert (0 <= Day now) as Hd
    by (unfold Day, msPerDay; Z.div_mod_to_equations; lia).
  assert (0 <= sunday) as Hsun.
  { unfold Day, msPerDay in Ed, Hd.
    destruct (Z.lt_ge_cases sunday 0) as [Hneg|]; [|done].
    exfalso. revert Ed Hd. Z.div_mod_to_equations. lia. }
  assert (thursdayOf sunday = thursdayOf now) as Eth.
  { unfold thursdayOf, isoWeekday, WeekDay. rewrite Ed.
    unfold k, getUTCDay, WeekDay in *.
    repeat match goal with
           | |- context [?a =? ?b] => destruct (Z.eqb_spec a b)
           end; Z.div_mod_to_equations; lia. }
  rewrite !getISOWeek_formula by done. cbn [iw_isoYear iw_isoWeek].
  by rewrite Eth.
Qed.

Lemma calcThisWeekStamp_week_of_today_witness :
  isoYear (calcThisWeekStamp Demo.now) = iw_isoYear (getISOWeek Demo.now)
  /\ isoWeek (calcThisWeekStamp Demo.now) = iw_isoWeek (getISOWeek Demo.now).
Proof. apply calcThisWeekStamp_week_of_today. by vm_compute. Defined.

End IsoWeek.

(** ** The date of the stamp as text *)

Section DateText.
Import JSDate.
Local Open Scope Z_scope.

Lemma DayWithinYear_range t :
  0 <= DayWithinYear t < DaysInYear (YearFromTime t).
Proof.
  unfold DayWithinYear, YearFromTime.
  pose proof (YearFromDay_spec (Day t)).
  pose proof (DayFromYear_next (YearFromDay (Day t))). lia.
Qed.

Lemma DateFromTime_range t : 1 <= DateFromTime t <= 31.
Proof.
  pose proof (DayWithinYear_range t) as Hr.
  unfold DateFromTime, MonthFromTime, InLeapYear in *.
  destruct (Z.eqb_spec (DaysInYear (YearFromTime t)) 366) as [E|E];
    [|pose proof (DaysInYear_range (YearFromTime t))];
    repeat match goal with
           | |- context [?a <? ?b] => destruct (Z.ltb_spec a b)
           end;
    repeat match goal with
           | H : context [monthStart ?m ?b] |- _ =>
             let v := eval vm_compute in (monthStart m b) in
             change (monthStart m b) with v in *
           | |- context [monthStart ?m ?b] =>
             let v := eval vm_compute in (monthStart m b) in
             change (monthStart m b) with v in *
           end; lia.
Qed.

Lemma in_range_forallb (f : Z -> bool) lo len n :
  forallb f (seqZ lo len) = true -> lo <= n < lo + len -> f n = true.
Proof.
  intros Hall Hn. rewrite forallb_forall in Hall. apply Hall.
  apply list_elem_of_In, elem_of_seqZ. lia.
Qed.

Lemma String_of_Z_four_digits y :
  1000 <= y <= 9999 -> length (String_of_Z y) = 4%nat.
Proof.
  intros Hy. apply Nat.eqb_eq.
  apply (in_range_forallb (fun y => (length (String_of_Z y) =? 4)%nat)
           1000 9000); [by vm_compute|lia].
Qed.

Lemma padStart_two_digits n :
  0 <= n <= 99 -> length (padStart (String_of_Z n) 2 (lit "0")) = 2%nat.
Proof.
  intros Hn. apply Nat.eqb_eq.
  apply (in_range_forallb
           (fun n => (length (padStart (String_of_Z n) 2 (lit "0")) =? 2)%nat)
           0 100); [by vm_compute|lia].
Qed.

Lemma forallb_digits (s : jsstring) :
  forallb (fun c => (48 <=? c) && (c <=? 57)) s = true -> Forall isDigit s.
Proof.
  rewrite forallb_forall. intros Hall. apply Forall_forall. intros c Hc.
  apply list_elem_of_In, Hall in Hc. unfold isDigit.
  destruct (Z.leb_spec 48 c), (Z.leb_spec c 57); try done; lia.
Qed.

Lemma String_of_Z_year_digits y :
  1000 <= y <= 9999 -> Forall isDigit (String_of_Z y).
Proof.
  intros Hy. apply forallb_digits.
  apply (in_range_forallb
           (fun y => forallb (fun c => (48 <=? c) && (c <=? 57))
                       (String_of_Z y)) 1000 9000); [by vm_compute|lia].
Qed.

Lemma padStart_two_digits_units n :
  0 <= n <= 99 -> Forall isDigit (padStart (String_of_Z n) 2 (lit "0")).
Proof.
  intros Hn. apply forallb_digits.
  apply (in_range_forallb
           (fun n => forallb (fun c => (48 <=? c) && (c <=? 57))
                       (padStart (String_of_Z n) 2 (lit "0"))) 0 100);
    [by vm_compute|lia].
Qed.

(** X9. For every instant since the epoch whose Sunday (the day of the
    instant or the next Sunday after it) is not later than the last Sunday
    of the year 9999, the date of the stamp has the form [YYYY-MM-DD]: four
    digits, a hyphen, two digits, a hyphen and two digits; the month and
    the day are padded to two digits. *)
Theorem sundayStr_format now :
  0 <= now ->
  Day now + (7 - getUTCDay now) mod 7 < DayFromYear 10000 ->
  exists y m d,
    sundayStr (calcThisWeekStamp now) = y ++ [45] ++ m ++ [45] ++ d
    /\ length y = 4%nat /\ length m = 2%nat /\ length d = 2%nat
    /\ Forall isDigit (y ++ m ++ d).
Proof.
  intros Hnow Hend.
  destruct (days_until_sunday now) as (Hk & _ & _).
  set (k := (7 - getUTCDay now) mod 7) in *.
  assert (0 <= Day now) as Hd
    by (unfold Day, msPerDay; Z.div_mod_to_equations; lia).
  unfold calcThisWeekStamp. cbn [sundayStr]. fold k.
  set (sunday := setUTCDate now (getUTCDate now + k)).
  assert (Day sunday = Day now + k) as Ed by apply Day_setUTCDate.
  assert (1970 <= getUTCFullYear sunday <= 9999) as Hy.
  { unfold getUTCFullYear, YearFromTime. rewrite Ed. split.
    - apply YearFromDay_ge. change (DayFromYear 1970) with 0. lia.
    - pose proof (YearFromDay_spec (Day now + k)) as Hs.
      destruct (Z.le_gt_cases (YearFromDay (Day now + k)) 9999); [done|].
      pose proof (DayFromYear_le 10000 (YearFromDay (Day now + k))). lia. }
  assert (0 <= getUTCMonth sunday <= 11) as Hm
    by exact (MonthFromTime_range sunday).
  assert (1 <= getUTCDate sunday <= 31) as Hdt
    by exact (DateFromTime_range sunday).
  exists (String_of_Z (getUTCFullYear sunday)),
    (padStart (String_of_Z (getUTCMonth sunday + 1)) 2 (lit "0")),
    (padStart (String_of_Z (getUTCDate sunday)) 2 (lit "0")).
  split; [reflexivity|]. split; [|split; [|split]].
  - apply String_of_Z_four_digits. lia.
  - apply padStart_two_digits. lia.
  - apply padStart_two_digits. lia.
  - repeat (apply Forall_app; split).
    + apply String_of_Z_year_digits. lia.
    + apply padStart_two_digits_units. lia.
    + apply padStart_two_digits_units. lia.
Qed.

Lemma sundayStr_format_witness :
  exists y m d,
    sundayStr (calcThisWeekStamp (UTC 9999 11 26))
    = y ++ [45] ++ m ++ [45] ++ d
    /\ length y = 4%nat /\ length m = 2%nat /\ length d = 2%nat
    /\ Forall isDigit (y ++ m ++ d).
Proof. apply sundayStr_format; by vm_compute. Defined.

End DateText.

(** ** More on the repository lister *)

Section ListerMore.
Context `{Platform}.
Implicit Types (token : jsstring) (h : History) (full : list (list Repo)).

Lemma fetchPage_history token page h :
  (fetchPage token page h).2 = h ++ [pageRequest token page].
Proof.
  unfold fetchPage. rewrite bind_fetch.
  destruct (remote (h ++ [pageRequest token page])) as [res|e]; [|done].
  destruct (res_ok res); cbn [negb]; [|done].
  rewrite bind_lift. by destruct (res_json res) as [[batch|data|]|e].
Qed.

Lemma fetchPage_Normal_inv token page h batch h' :
  fetchPage token page h = (Normal batch, h') ->
  exists res,
    remote (h ++ [pageRequest token page]) = Normal res
    /\ answersBatch res batch
    /\ h' = h ++ [pageRequest token page].
Proof.
  unfold fetchPage. rewrite bind_fetch.
  destruct (remote (h ++ [pageRequest token page])) as [res|e]; [|done].
  destruct (res_ok res) eqn:Hok; cbn [negb]; [|done].
  rewrite bind_lift.
  destruct (res_json res) as [[b|data|]|e] eqn:Hj; try done.
  intros [= <- <-]. by exists res.
Qed.

Lemma pagesFrom_S_cons page n :
  pagesFrom page (S n) = page :: pagesFrom (page + 1) n.
Proof. reflexivity. Qed.

Lemma history_step token page n h :
  (h ++ [pageRequest token page])
    ++ (pageRequest token <$> pagesFrom (page + 1) n)
  = h ++ (pageRequest token <$> pagesFrom page (S n)).
Proof. rewrite pagesFrom_S_cons, fmap_cons. by rewrite <- app_assoc. Qed.

Lemma fetchAllRepos_loop_sound fuel : forall token page acc h repos h',
  fetchAllRepos_loop fuel token page acc h = Some (Normal repos, h') ->
  exists full batch res,
    (forall i b, full !! i = Some b ->
       exists r,
         remote (h ++ (pageRequest token <$> pagesFrom page (S i))) = Normal r
         /\ answersBatch r b /\ (perPage <= Z.of_nat (length b))%Z)
    /\ remote (h ++ (pageRequest token <$> pagesFrom page (S (length full))))
       = Normal res
    /\ answersBatch res batch
    /\ (Z.of_nat (length batch) < perPage)%Z
    /\ repos = acc ++ concat full ++ batch
    /\ h' = h ++ (pageRequest token <$> pagesFrom page (S (length full)))
    /\ (length full < fuel)%nat.
Proof.
  induction fuel as [|fuel IH]; intros token page acc h repos h' E; [done|].
  simpl in E.
  destruct (fetchPage token page h) as [[batch|e] h1] eqn:Ep; [|done].
  apply fetchPage_Normal_inv in Ep as (res & Hres & Hans & ->).
  destruct (Z.ltb_spec (Z.of_nat (length batch)) perPage) as [Hshort|Hfull].
  - injection E as <- <-. exists [], batch, res.
    split_and!; [done|done|done|done|done|done|simpl; lia].
  - apply IH in E as (full & b & r & Hfull' & Hr & Hb & Hs & -> & -> & Hlt).
    exists (batch :: full), b, r. split_and!; [| |done|done| | |simpl; lia].
    + intros [|i] b' Hi.
      * injection Hi as <-. by exists res.
      * destruct (Hfull' i b' Hi) as (r' & Hr' & Hrest).
        exists r'. split; [|done]. by rewrite <- (history_step token page).
    + simpl length. by rewrite <- (history_step token page).
    + simpl. by rewrite <- !app_assoc.
    + simpl length. apply history_step.
Qed.

(** X10. When the lister returns a list, every page it asked for was
    answered with success: the pages before the last with at least 100
    items each, the last with fewer; the list is made of the items of these
    pages, in order, and nothing else, and the requests are those for the
    pages 1 to the last. *)
Theorem fetchAllRepos_sound fuel token h repos h' :
  fetchAllRepos fuel token h = Some (Normal repos, h') ->
  exists full batch res,
    (forall i b, full !! i = Some b ->
       exists r,
         remote (h ++ pageRequests token (S i)) = Normal r
         /\ answersBatch r b /\ (perPage <= Z.of_nat (length b))%Z)
    /\ remote (h ++ pageRequests token (S (length full))) = Normal res
    /\ answersBatch res batch
    /\ (Z.of_nat (length batch) < perPage)%Z
    /\ repos = concat full ++ batch
    /\ h' = h ++ pageRequests token (S (length full))
    /\ (length full < fuel)%nat.
Proof. intros E. by apply fetchAllRepos_loop_sound in E. Qed.

Lemma fetchAllRepos_loop_requests fuel : forall token page acc h c h',
  fetchAllRepos_loop fuel token page acc h = Some (c, h') ->
  exists k, (1 <= k <= fuel)%nat
            /\ h' = h ++ (pageRequest token <$> pagesFrom page k).
Proof.
  induction fuel as [|fuel IH]; intros token page acc h c h' E; [done|].
  simpl in E. pose proof (fetchPage_history token page h) as Hh.
  destruct (fetchPage token page h) as [[batch|e] h1]; cbn [snd] in Hh; subst h1.
  - destruct (Z.of_nat (length batch) <? perPage)%Z.
    + injection E as <- <-. exists 1%nat. split; [lia|done].
    + apply IH in E as (k & Hk & ->). exists (S k). split; [lia|].
      apply history_step.
  - injection E as <- <-. exists 1%nat. split; [lia|done].
Qed.

(** X11. Whatever the remote service answers, and whether the lister
    returns or throws, what it has sent are the listing requests for the
    pages 1 to [k], in this order, for some [k] between 1 and the number of
    turns of the loop: it sends nothing else, leaves no page out and asks
    for no page twice. *)
Theorem fetchAllRepos_requests fuel token h c h' :
  fetchAllRepos fuel token h = Some (c, h') ->
  exists k, (1 <= k <= fuel)%nat /\ h' = h ++ pageRequests token k.
Proof. apply fetchAllRepos_loop_requests. Qed.

Lemma fetchAllRepos_loop_endless fuel : forall token page acc h,
  (forall n, exists r b,
     remote (h ++ (pageRequest token <$> pagesFrom page (S n))) = Normal r
     /\ answersBatch r b /\ (perPage <= Z.of_nat (length b))%Z) ->
  fetchAllRepos_loop fuel token page acc h = None.
Proof.
  induction fuel as [|fuel IH]; intros token page acc h Hall; [done|].
  destruct (Hall 0%nat) as (r & b & Hr & Hans & Hlen).
  simpl. simpl in Hr. rewrite (fetchPage_batch _ _ _ _ _ Hr Hans).
  destruct (Z.ltb_spec (Z.of_nat (length b)) perPage) as [?|_]; [lia|].
  apply IH. intros n. destruct (Hall (S n)) as (r' & b' & Hr' & Hrest).
  exists r', b'. split; [|done].
  rewrite <- Hr'. by rewrite history_step.
Qed.

(** X12. The lister has no bound on the number of pages: against a remote
    service that answers every page with at least 100 items the loop does
    not end, however many turns it is given. *)
Theorem fetchAllRepos_endless token h :
  (forall n, exists r b,
     remote (h ++ pageRequests token (S n)) = Normal r
     /\ answersBatch r b /\ (perPage <= Z.of_nat (length b))%Z) ->
  forall fuel, fetchAllRepos fuel token h = None.
Proof. intros Hall fuel. by apply fetchAllRepos_loop_endless. Qed.

End ListerMore.

Lemma fetchAllRepos_sound_witness :
  exists full batch res,
    (forall i b, full !! i = Some b ->
       exists r,
         @remote Demo.pagedPlatform ([] ++ pageRequests Demo.token (S i))
           = Normal r
         /\ answersBatch r b /\ (perPage <= Z.of_nat (length b))%Z)
    /\ @remote Demo.pagedPlatform
         ([] ++ pageRequests Demo.token (S (length full))) = Normal res
    /\ answersBatch res batch
    /\ (Z.of_nat (length batch) < perPage)%Z
    /\ replicate 100 Demo.alpha ++ [Demo.beta] = concat full ++ batch
    /\ pageRequests Demo.token 2
       = [] ++ pageRequests Demo.token (S (length full))
    /\ (length full < 3)%nat.
Proof.
  apply (@fetchAllRepos_sound Demo.pagedPlatform 3 Demo.token []).
  by vm_compute.
Defined.

Lemma fetchAllRepos_requests_witness :
  exists k, (1 <= k <= 3)%nat
            /\ pageRequests Demo.token 2 = [] ++ pageRequests Demo.token k.
Proof.
  apply (@fetchAllRepos_requests Demo.pagedPlatform 3 Demo.token []
           (Normal (replicate 100 Demo.alpha ++ [Demo.beta]))).
  by vm_compute.
Defined.

Lemma fetchAllRepos_endless_witness :
  @fetchAllRepos Demo.endlessPlatform 5 Demo.token [] = None.
Proof.
  apply (@fetchAllRepos_endless Demo.endlessPlatform Demo.token []).
  intros n. eexists _, (replicate 100 Demo.alpha).
  split; [reflexivity|]. split; [by split|]. by vm_compute.
Defined.

(** ** More on the document updater *)

Section UpdaterMore.
Context `{Platform}.
Implicit Types (token owner repo : jsstring) (h : History).

Lemma res_ok_not_404 res : res_ok res = true -> res_status res <> 404%Z.
Proof. unfold res_ok. intros [H1 H2]%andb_prop. lia. Qed.

Lemma updateReadmeForRepo_missing token owner repo stampInfo h res :
  remote (h ++ [readmeRequest token owner repo]) = Normal res ->
  res_status res = 404%Z ->
  updateReadmeForRepo token owner repo stampInfo h
  = (Normal false, h ++ [readmeRequest token owner repo]).
Proof.
  intros Hres H404. unfold updateReadmeForRepo.
  rewrite bind_fetch, Hres, H404. reflexivity.
Qed.

(** X13. The document updater returns [false] (skipped) exactly when the
    remote service answers the read of the README with status 404, and
    then the read is its only request.  A README that exists is never
    skipped, whatever its content. *)
Theorem updateReadmeForRepo_skip_iff token owner repo stampInfo h h' :
  updateReadmeForRepo token owner repo stampInfo h = (Normal false, h')
  <-> exists res,
        remote (h ++ [readmeRequest token owner repo]) = Normal res
        /\ res_status res = 404%Z
        /\ h' = h ++ [readmeRequest token owner repo].
Proof.
  split.
  - apply updateReadmeForRepo_skips_only_missing.
  - intros (res & Hres & H404 & ->).
    by apply updateReadmeForRepo_missing with res.
Qed.

(** What the document updater sends and what it can return. *)
Lemma updateReadmeForRepo_history token owner repo stampInfo h c h' :
  updateReadmeForRepo token owner repo stampInfo h = (c, h') ->
  (h' = h ++ [readmeRequest token owner repo] /\ c <> Normal true)
  \/ (exists res data path body,
        remote (h ++ [readmeRequest token owner repo]) = Normal res
        /\ res_ok res = true
        /\ res_json res = Normal (JReadme data)
        /\ pb_sha body = rd_sha data
        /\ h' = h ++ [readmeRequest token owner repo;
                      writeRequest token owner repo path body]
        /\ c <> Normal false).
Proof.
  unfold updateReadmeForRepo. rewrite bind_fetch.
  destruct (remote (h ++ [readmeRequest token owner repo])) as [res|e] eqn:Hres;
    [|intros [= <- <-]; by left].
  destruct (Z.eqb_spec (res_status res) 404) as [E404|_];
    [intros [= <- <-]; by left|].
  destruct (res_ok res) eqn:Hok; cbn [negb]; [|intros [= <- <-]; by left].
  rewrite bind_lift.
  destruct (res_json res) as [[batch|data|]|e] eqn:Hj;
    try (intros [= <- <-]; by left).
  rewrite bind_lift.
  destruct (fromBase64 (rd_content data)) as [orig|e];
    [|intros [= <- <-]; by left].
  rewrite bool_decide_eq_false_2 by apply applyStamp_never_fixed.
  rewrite bind_lift.
  destruct (encodeURIComponent _) as [p|e]; [|intros [= <- <-]; by left].
  rewrite bind_lift.
  destruct (toBase64 _) as [b|e]; [|intros [= <- <-]; by left].
  rewrite bind_fetch.
  match goal with
  | |- context [writeRequest token owner repo p ?bd] => set (body := bd)
  end.
  intros E. right. exists res, data, p, body.
  split_and!; [done..| |].
  - destruct (remote _) as [res'|e] in E.
    + destruct (res_ok res') in E; injection E as <- <-;
        by rewrite <- app_assoc.
    + injection E as <- <-. by rewrite <- app_assoc.
  - destruct (remote _) as [res'|e] in E.
    + by destruct (res_ok res') in E; injection E as <- <-.
    + by injection E as <- <-.
Qed.

(** X14. The document updater sends the read of the README and then at
    most one write, never a write without the read; it returns [true]
    (updated) only after a write, and a write is only sent after the read
    was answered with success, with the [sha] that the read returned. *)
Theorem updateReadmeForRepo_requests token owner repo stampInfo h c h' :
  updateReadmeForRepo token owner repo stampInfo h = (c, h') ->
  (h' = h ++ [readmeRequest token owner repo] /\ c <> Normal true)
  \/ (exists res data path body,
        remote (h ++ [readmeRequest token owner repo]) = Normal res
        /\ res_ok res = true
        /\ res_json res = Normal (JReadme data)
        /\ pb_sha body = rd_sha data
        /\ h' = h ++ [readmeRequest token owner repo;
                      writeRequest token owner repo path body]
        /\ c <> Normal false).
Proof. apply updateReadmeForRepo_history. Qed.

(** X15. The write.  When the README was read with success and decoded to
    [original], the write goes to the path of the README, percent-encoded,
    and carries the patched text in Base64, the [sha] of the version read
    and a message with the date of the stamp; the updater returns [true]
    when the write is answered with success and otherwise throws an error
    whose message has the status and the body of the answer (a conflict
    included), without a second attempt. *)
Theorem updateReadmeForRepo_write token owner repo stampInfo h
    res data original path content res2 :
  remote (h ++ [readmeRequest token owner repo]) = Normal res ->
  res_ok res = true ->
  res_json res = Normal (JReadme data) ->
  fromBase64 (rd_content data) = Normal original ->
  encodeURIComponent (rd_path data) = Normal path ->
  toBase64 (applyStamp original (stampText stampInfo)) = Normal content ->
  let put := writeRequest token owner repo path
               {| pb_message := lit "chore: update weekly stamp ("
                                ++ sundayStr stampInfo ++ lit ")";
                  pb_content := content;
                  pb_sha := rd_sha data |} in
  remote (h ++ [readmeRequest token owner repo; put]) = Normal res2 ->
  updateReadmeForRepo token owner repo stampInfo h
  = (if res_ok res2 then Normal true
     else Throw (Error (lit "更新 README 失败: "
                        ++ String_of_Z (res_status res2)
                        ++ lit " " ++ res_text res2)),
     h ++ [readmeRequest token owner repo; put]).
Proof.
  intros Hres Hok Hj Hdec Hpath Henc put Hput.
  unfold updateReadmeForRepo. rewrite bind_fetch, Hres.
  destruct (Z.eqb_spec (res_status res) 404) as [E404|_];
    [by apply res_ok_not_404 in Hok|].
  rewrite Hok. cbn [negb]. rewrite bind_lift, Hj, bind_lift, Hdec.
  rewrite bool_decide_eq_false_2 by apply applyStamp_never_fixed.
  rewrite bind_lift, Hpath, bind_lift, Henc, bind_fetch.
  fold put. rewrite <- app_assoc. cbn [app]. rewrite Hput.
  by destruct (res_ok res2).
Qed.

End UpdaterMore.

Lemma updateReadmeForRepo_skip_iff_witness :
  @updateReadmeForRepo Demo.platform Demo.token (lit "octo") (lit "gamma")
    (calcThisWeekStamp Demo.now) []
  = (Normal false, [] ++ [readmeRequest Demo.token (lit "octo") (lit "gamma")]).
Proof.
  apply (@updateReadmeForRepo_skip_iff Demo.platform).
  eexists. split; [by vm_compute|]. by split.
Defined.

Lemma updateReadmeForRepo_requests_witness :
  ([readmeRequest Demo.token (lit "octo") (lit "gamma")]
   = [] ++ [readmeRequest Demo.token (lit "octo") (lit "gamma")]
   /\ @Normal bool false <> Normal true)
  \/ (exists res data path body,
        @remote Demo.platform
          ([] ++ [readmeRequest Demo.token (lit "octo") (lit "gamma")])
          = Normal res
        /\ res_ok res = true
        /\ res_json res = Normal (JReadme data)
        /\ pb_sha body = rd_sha data
        /\ [readmeRequest Demo.token (lit "octo") (lit "gamma")]
           = [] ++ [readmeRequest Demo.token (lit "octo") (lit "gamma");
                    writeRequest Demo.token (lit "octo") (lit "gamma")
                      path body]
        /\ @Normal bool false <> Normal false).
Proof.
  apply (@updateReadmeForRepo_requests Demo.platform Demo.token (lit "octo")
           (lit "gamma") (calcThisWeekStamp Demo.now) []).
  by vm_compute.
Defined.

Lemma updateReadmeForRepo_write_witness :
  @updateReadmeForRepo Demo.platform Demo.token (lit "octo") (lit "beta")
    (calcThisWeekStamp Demo.now) []
  = (Throw (Error (lit "更新 README 失败: 409 README.md does not match sha-b")),
     [] ++ [ readmeRequest Demo.token (lit "octo") (lit "beta");
             writeRequest Demo.token (lit "octo") (lit "beta") (lit "README.md")
               {| pb_message := lit "chore: update weekly stamp (2024-01-07)";
                  pb_content := lit
   "IyBiZXRhCgrmnKzlkajorrDlvZU6IDIwMjQtMDEtMDcgwrcgMjAyNOW5tOesrDHlkagK";
                  pb_sha := lit "sha-b" |} ]).
Proof.
  etransitivity.
  - apply (@updateReadmeForRepo_write Demo.platform Demo.token (lit "octo")
             (lit "beta") (calcThisWeekStamp Demo.now) []
             {| res_status := 200; res_text := lit "{...}";
                res_json := Normal (Demo.readme (lit "sha-b")
                                      (lit "IyBiZXRhCg==\n")) |}
             {| rd_sha := lit "sha-b"; rd_path := lit "README.md";
                rd_content := lit "IyBiZXRhCg==\n" |}
             (lit "# beta\n") (lit "README.md")
             (lit
   "IyBiZXRhCgrmnKzlkajorrDlvZU6IDIwMjQtMDEtMDcgwrcgMjAyNOW5tOesrDHlkagK")
             {| res_status := 409; res_text := Demo.conflictText;
                res_json := Normal JOther |}); by vm_compute.
  - by vm_compute.
Defined.

(** ** More on the orchestrator *)

Section OrchestratorMore.
Context `{Platform}.
Implicit Types (token : jsstring) (h : History) (repos : list Repo).

Lemma forEachRepo_Normal token stampInfo repos acc h :
  exists summary h', forEachRepo token stampInfo repos acc h
                     = (Normal summary, h').
Proof.
  destruct (forEachRepo_visits token stampInfo repos acc h)
    as (summary & h' & E & _). by exists (acc ++ summary), h'.
Qed.

Lemma fetchPage_Throw_inv token page h e h' :
  fetchPage token page h = (Throw e, h') ->
  h' = h ++ [pageRequest token page]
  /\ (remote h' = Throw e
      \/ (exists res,
            remote h' = Normal res /\ res_ok res = false
            /\ e = Error (lit "获取仓库失败: " ++ String_of_Z (res_status res)
                          ++ lit " " ++ res_text res))
      \/ (exists res,
            remote h' = Normal res /\ res_ok res = true
            /\ forall batch, res_json res <> Normal (JRepos batch))).
Proof.
  unfold fetchPage. rewrite bind_fetch.
  destruct (remote (h ++ [pageRequest token page])) as [res|e1] eqn:Hres.
  - destruct (res_ok res) eqn:Hok; cbn [negb].
    + rewrite bind_lift.
      destruct (res_json res) as [[b|data|]|e1] eqn:Hj; try done;
        intros [= <- <-]; (split; [done|]); right; right; exists res;
        by rewrite Hres, Hj.
    + intros [= <- <-]. split; [done|]. right. left. by exists res.
  - intros [= <- <-]. split; [done|]. by left.
Qed.

Lemma fetchAllRepos_loop_throws fuel : forall token page acc h e h',
  fetchAllRepos_loop fuel token page acc h = Some (Throw e, h') ->
  exists k, (1 <= k <= fuel)%nat
    /\ h' = h ++ (pageRequest token <$> pagesFrom page k)
    /\ (remote h' = Throw e
        \/ (exists res,
              remote h' = Normal res /\ res_ok res = false
              /\ e = Error (lit "获取仓库失败: "
                            ++ String_of_Z (res_status res)
                            ++ lit " " ++ res_text res))
        \/ (exists res,
              remote h' = Normal res /\ res_ok res = true
              /\ forall batch, res_json res <> Normal (JRepos batch))).
Proof.
  induction fuel as [|fuel IH]; intros token page acc h e h' E; [done|].
  simpl in E.
  destruct (fetchPage token page h) as [[batch|e1] h1] eqn:Ep.
  - pose proof (fetchPage_history token page h) as Hh.
    rewrite Ep in Hh. cbn [snd] in Hh. subst h1.
    destruct (Z.of_nat (length batch) <? perPage)%Z; [done|].
    apply IH in E as (k & Hk & -> & Hwhy).
    exists (S k). split; [lia|]. rewrite <- (history_step token page).
    by split.
  - injection E as <- <-.
    apply fetchPage_Throw_inv in Ep as [-> Hwhy].
    exists 1%nat. split; [lia|]. by split.
Qed.

(** X16. When a run throws.  Without a token (missing or empty) it throws
    the configuration error before any request, whatever the remote service
    would answer.  When a run with a token throws, then one of the pages of
    the listing was not answered with a list of repositories: the transport
    failed, and the run throws that error after that request; or the status
    was not a success, and the run throws the error with the status and the
    body after that request; or the body was not a list of repository
    objects.  So what happens on reading or writing a README never makes a
    run throw. *)
Theorem updateAllRepos_throws fuel now env h :
  ((GITHUB_TOKEN env = None \/ GITHUB_TOKEN env = Some []) ->
   updateAllRepos fuel now env h = Some (Throw missingTokenError, h))
  /\ (forall e h',
      updateAllRepos fuel now env h = Some (Throw e, h') ->
      ((GITHUB_TOKEN env = None \/ GITHUB_TOKEN env = Some [])
       /\ e = missingTokenError /\ h' = h)
      \/ (exists token k,
            GITHUB_TOKEN env = Some token /\ token <> []
            /\ (1 <= k <= fuel)%nat
            /\ let hk := h ++ pageRequests token k in
               (remote hk = Throw e /\ h' = hk)
               \/ (exists res,
                     remote hk = Normal res /\ res_ok res = false
                     /\ e = Error (lit "获取仓库失败: "
                                   ++ String_of_Z (res_status res)
                                   ++ lit " " ++ res_text res)
                     /\ h' = hk)
               \/ (exists res,
                     remote hk = Normal res /\ res_ok res = true
                     /\ forall batch, res_json res <> Normal (JRepos batch)))).
Proof.
  split.
  - unfold updateAllRepos. by intros [-> | ->].
  - intros e h'. unfold updateAllRepos.
    destruct (GITHUB_TOKEN env) as [[|c token]|] eqn:Etok.
    + intros [= <- <-]. left. split_and!; [by right|done|done].
    + cbn [isEmpty]. intros E. right.
      destruct (fetchAllRepos fuel (c :: token) h) as [[[repos|e1] h1]|] eqn:El;
        [| |done].
      * destruct (forEachRepo_Normal (c :: token) (calcThisWeekStamp now)
                    repos [] h1) as (summary & h2 & Ef).
        by rewrite Ef in E.
      * injection E as <- <-.
        apply fetchAllRepos_loop_throws in El as (k & Hk & -> & Hwhy).
        exists (c :: token), k. split_and!; [done|done|lia|lia|].
        cbn zeta. unfold pageRequests.
        destruct Hwhy as [Ht|[(res & Hr & Hok & ->)|(res & Hr & Hok & Hj)]].
        -- by left.
        -- right. left. by exists res.
        -- right. right. by exists res.
    + intros [= <- <-]. left. split_and!; [by left|done|done].
Qed.

Lemma workerRequest_page token page : workerRequest token (pageRequest token page).
Proof.
  split_and!; [done| |done]. unfold pageRequest. cbn [rq_url].
  change (startsWith
            (lit "https://api.github.com/"
             ++ lit "user/repos?per_page=" ++ String_of_Z perPage
             ++ lit "&page=" ++ String_of_Z page)
            (lit "https://api.github.com/") = true).
  apply startsWith_app.
Qed.

Lemma workerRequest_readme token owner repo :
  workerRequest token (readmeRequest token owner repo).
Proof.
  split_and!; [done| |done]. unfold readmeRequest. cbn [rq_url].
  change (startsWith
            (lit "https://api.github.com/"
             ++ lit "repos/" ++ owner ++ lit "/" ++ repo ++ lit "/readme")
            (lit "https://api.github.com/") = true).
  apply startsWith_app.
Qed.

Lemma workerRequest_write token owner repo path body :
  workerRequest token (writeRequest token owner repo path body).
Proof.
  split_and!; [done| |done]. unfold writeRequest. cbn [rq_url].
  change (startsWith
            (lit "https://api.github.com/"
             ++ lit "repos/" ++ owner ++ lit "/" ++ repo
             ++ lit "/contents/" ++ path)
            (lit "https://api.github.com/") = true).
  apply startsWith_app.
Qed.

Lemma Visits_requests token stampInfo repos h summary h' :
  Visits token stampInfo repos h summary h' ->
  exists new, h' = h ++ new /\ Forall (workerRequest token) new
              /\ (length new <= 2 * length repos)%nat.
Proof.
  induction 1 as [h|repo repos h c h1 summary h2 Hu _ IH].
  - exists []. by rewrite app_nil_r.
  - destruct IH as (new & -> & Hnew & Hlen).
    apply updateReadmeForRepo_history in Hu
      as [[-> _]|(res & data & path & body & _ & _ & _ & _ & -> & _)].
    + eexists (_ :: new). split_and!.
      * by rewrite <- app_assoc.
      * apply Forall_cons. split; [apply workerRequest_readme|done].
      * simpl. lia.
    + eexists (_ :: _ :: new). split_and!.
      * by rewrite <- app_assoc.
      * apply Forall_cons. split; [apply workerRequest_readme|].
        apply Forall_cons. split; [apply workerRequest_write|done].
      * simpl. lia.
Qed.

(** X17. Every request of a run, however it ends, goes to a URL that
    starts with [https://api.github.com/]; its headers are
    [Authorization: Bearer] with the token, [Accept:
    application/vnd.github+json] and [User-Agent: cf-worker-weekly-stamp]
    and no other, so the token is sent in the [Authorization] header only;
    and it has a body only when it is a write. *)
Theorem updateAllRepos_requests fuel now token h c h' :
  updateAllRepos fuel now {| GITHUB_TOKEN := Some token |} h = Some (c, h') ->
  exists new, h' = h ++ new /\ Forall (workerRequest token) new.
Proof.
  unfold updateAllRepos. cbn [GITHUB_TOKEN].
  destruct (isEmpty token).
  { intros [= <- <-]. exists []. by rewrite app_nil_r. }
  destruct (fetchAllRepos fuel token h) as [[c1 h1]|] eqn:El; [|done].
  apply fetchAllRepos_loop_requests in El as (k & _ & ->).
  assert (Forall (workerRequest token)
            (pageRequest token <$> pagesFrom 1 k)) as Hpages.
  { apply Forall_fmap, Forall_forall. intros page _. apply workerRequest_page. }
  destruct c1 as [repos|e].
  - destruct (forEachRepo_visits token (calcThisWeekStamp now) repos []
                (h ++ (pageRequest token <$> pagesFrom 1 k)))
      as (summary & h2 & Ef & V). rewrite Ef.
    apply Visits_requests in V as (new & -> & Hnew & _).
    intros [= <- <-]. eexists (_ ++ new). split; [by rewrite <- app_assoc|].
    by apply Forall_app.
  - intros [= <- <-]. by eexists.
Qed.

End OrchestratorMore.

Lemma updateAllRepos_throws_witness :
  @updateAllRepos Demo.platform 3 Demo.now {| GITHUB_TOKEN := Some [] |} []
  = Some (Throw missingTokenError, [])
  /\ (((Some Demo.token = None \/ Some Demo.token = Some [])
       /\ Ref.NetworkError = missingTokenError
       /\ [pageRequest Demo.token 1] = [])
      \/ (exists token k,
            Some Demo.token = Some token /\ token <> []
            /\ (1 <= k <= 3)%nat
            /\ let hk := [] ++ pageRequests token k in
               (@remote Demo.offlinePlatform hk = Throw Ref.NetworkError
                /\ [pageRequest Demo.token 1] = hk)
               \/ (exists res,
                     @remote Demo.offlinePlatform hk = Normal res
                     /\ res_ok res = false
                     /\ Ref.NetworkError
                        = Error (lit "获取仓库失败: "
                                 ++ String_of_Z (res_status res)
                                 ++ lit " " ++ res_text res)
                     /\ [pageRequest Demo.token 1] = hk)
               \/ (exists res,
                     @remote Demo.offlinePlatform hk = Normal res
                     /\ res_ok res = true
                     /\ forall batch,
                          res_json res <> Normal (JRepos batch)))).
Proof.
  split.
  - apply (proj1 (@updateAllRepos_throws Demo.platform 3 Demo.now
                    {| GITHUB_TOKEN := Some [] |} [])).
    by right.
  - apply (proj2 (@updateAllRepos_throws Demo.offlinePlatform 3 Demo.now
                    {| GITHUB_TOKEN := Some Demo.token |} [])).
    vm_compute. reflexivity.
Defined.

Lemma updateAllRepos_requests_witness :
  exists new,
    [ pageRequest Demo.token 1;
      readmeRequest Demo.token (lit "octo") (lit "alpha");
      writeRequest Demo.token (lit "octo") (lit "alpha") (lit "README.md")
        {| pb_message := lit "chore: update weekly stamp (2024-01-07)";
           pb_content := lit
   "IyBhbHBoYQoK5pys5ZGo6K6w5b2VOiAyMDI0LTAxLTA3IMK3IDIwMjTlubTnrKwx5ZGoCg==";
           pb_sha := lit "sha-a" |};
      readmeRequest Demo.token (lit "octo") (lit "beta");
      writeRequest Demo.token (lit "octo") (lit "beta") (lit "README.md")
        {| pb_message := lit "chore: update weekly stamp (2024-01-07)";
           pb_content := lit
   "IyBiZXRhCgrmnKzlkajorrDlvZU6IDIwMjQtMDEtMDcgwrcgMjAyNOW5tOesrDHlkagK";
           pb_sha := lit "sha-b" |};
      readmeRequest Demo.token (lit "octo") (lit "gamma") ]
    = [] ++ new
    /\ Forall (workerRequest Demo.token) new.
Proof.
  refine (@updateAllRepos_requests Demo.platform 3 Demo.now Demo.token [] _ _ _).
  vm_compute. reflexivity.
Defined.

(** ** The reference codecs: Base64 *)

Section Base64.
Local Open Scope Z_scope.
Import Ref.

Lemma list_ind3 {A} (P : list A -> Prop) :
  P [] -> (forall a, P [a]) -> (forall a b, P [a; b]) ->
  (forall a b c r, P r -> P (a :: b :: c :: r)) ->
  forall l, P l.
Proof.
  intros H0 H1 H2 H3.
  assert (forall n l, (length l <= n)%nat -> P l) as Hn.
  { induction n as [|n IH]; intros l Hl.
    - destruct l; [done|simpl in Hl; lia].
    - destruct l as [|a [|b [|c r]]]; [done..|].
      apply H3, IH. simpl in Hl. lia. }
  intros l. by apply (Hn (length l)).
Qed.

Lemma b64val_b64char v : 0 <= v < 64 -> b64val (b64char v) = Some v.
Proof.
  intros Hv. unfold b64val, b64char.
  repeat match goal with
         | |- context [?a <? ?b] => destruct (Z.ltb_spec a b)
         | |- context [?a <=? ?b] => destruct (Z.leb_spec a b)
         | |- context [?a =? ?b] => destruct (Z.eqb_spec a b)
         end; cbn [andb]; try (f_equal; lia); lia.
Qed.

Lemma b64char_plain v :
  0 <= v < 64 -> isAsciiSpace (b64char v) = false /\ b64char v <> 61.
Proof.
  intros Hv. unfold isAsciiSpace, b64char.
  repeat match goal with
         | |- context [?a <? ?b] => destruct (Z.ltb_spec a b)
         | |- context [?a =? ?b] => destruct (Z.eqb_spec a b)
         end; cbn [orb]; split; (done || lia).
Qed.

(** What [b64encode] makes of bytes: the characters of a list of sextets
    that decodes to the bytes, and the padding. *)
Lemma b64encode_shape bs :
  Forall isByte bs ->
  exists vs pad,
    b64encode bs = (b64char <$> vs) ++ pad
    /\ Forall sextet vs
    /\ (pad = [] \/ pad = [61] \/ pad = [61; 61])
    /\ (length (b64encode bs) mod 4 = 0)%nat
    /\ (length vs mod 4 <> 1)%nat
    /\ b64decode vs = bs.
Proof.
  unfold isByte. induction bs as [|a|a b|a b c r IH] using list_ind3; intros Hb.
  - exists [], []. split_and!; try done. by left.
  - apply Forall_inv in Hb.
    exists [a / 4; a mod 4 * 16], [61; 61].
    split_and!; try done.
    + repeat constructor; Z.div_mod_to_equations; lia.
    + by right; right.
    + cbn. f_equal. Z.div_mod_to_equations. lia.
  - apply Forall_cons in Hb as [Ha Hb]. apply Forall_inv in Hb.
    exists [a / 4; a mod 4 * 16 + b / 16; b mod 16 * 4], [61].
    split_and!; try done.
    + repeat constructor; Z.div_mod_to_equations; lia.
    + by right; left.
    + cbn. f_equal; [|f_equal]; Z.div_mod_to_equations; lia.
  - apply Forall_cons in Hb as [Ha Hb]. apply Forall_cons in Hb as [Hb' Hb].
    apply Forall_cons in Hb as [Hc Hb].
    destruct (IH Hb) as (vs & pad & E & Hvs & Hpad & Hlen & Hvl & Hdec).
    exists (a / 4 :: (a mod 4 * 16 + b / 16) :: (b mod 16 * 4 + c / 64)
            :: c mod 64 :: vs), pad.
    change (b64encode (a :: b :: c :: r))
      with (b64char (a / 4) :: b64char (a mod 4 * 16 + b / 16)
            :: b64char (b mod 16 * 4 + c / 64) :: b64char (c mod 64)
            :: b64encode r).
    split_and!.
    + by rewrite E.
    + repeat (apply Forall_cons; split); try done;
        Z.div_mod_to_equations; lia.
    + done.
    + simpl length.
      replace (S (S (S (S (length (b64encode r))))))
        with (length (b64encode r) + 1 * 4)%nat by lia.
      by rewrite Nat.Div0.mod_add.
    + simpl length.
      replace (S (S (S (S (length vs))))) with (length vs + 1 * 4)%nat by lia.
      by rewrite Nat.Div0.mod_add.
    + change (b64decode (?v1 :: ?v2 :: ?v3 :: ?v4 :: vs))
        with ((v1 * 4 + v2 / 16) :: (v2 mod 16 * 16 + v3 / 4)
              :: (v3 mod 4 * 64 + v4) :: b64decode vs).
      rewrite Hdec. f_equal; [|f_equal; [|f_equal]];
        Z.div_mod_to_equations; lia.
Qed.

Lemma match_61 {A} (c : Z) (x y : A) :
  c <> 61 -> match c with 61 => x | _ => y end = y.
Proof.
  intros Hc. destruct c as [|p|p]; try done.
  do 6 (destruct p as [p|p|]; try done).
Qed.

Lemma reverse_fmap_head vs :
  Forall sextet vs ->
  reverse (b64char <$> vs) = []
  \/ exists c r, reverse (b64char <$> vs) = c :: r /\ c <> 61.
Proof.
  intros Hvs. destruct vs as [|v vs IH] using rev_ind; [by left|]. clear IH.
  right. apply Forall_app in Hvs as [_ Hv%Forall_inv].
  rewrite fmap_app, reverse_app. simpl.
  eexists _, _. split; [done|]. by apply b64char_plain.
Qed.

Lemma stripPadding_encoded vs pad :
  Forall sextet vs ->
  pad = [] \/ pad = [61] \/ pad = [61; 61] ->
  (length ((b64char <$> vs) ++ pad) mod 4 = 0)%nat ->
  stripPadding ((b64char <$> vs) ++ pad) = b64char <$> vs.
Proof.
  intros Hvs Hpad Hlen. unfold stripPadding. rewrite Hlen. cbn [Nat.eqb].
  rewrite reverse_app.
  destruct (reverse_fmap_head vs Hvs) as [E|(c & r & E & Hc)];
    destruct Hpad as [-> | [-> | ->]]; cbn [reverse rev_append app];
    rewrite ?app_nil_r.
  - rewrite E. by apply (f_equal reverse) in E; rewrite reverse_involutive in E.
  - rewrite E. cbn. apply (f_equal reverse) in E.
    by rewrite reverse_involutive in E.
  - rewrite E. cbn. apply (f_equal reverse) in E.
    by rewrite reverse_involutive in E.
  - rewrite E. cbn. by apply match_61.
  - change (reverse [61]) with [61]. cbn [app]. rewrite E. cbn.
    rewrite match_61 by done.
    change (rev_append r [c]) with (reverse (c :: r)).
    by rewrite <- E, reverse_involutive.
  - change (reverse [61; 61]) with [61; 61]. cbn [app]. rewrite E.
    change (reverse (c :: r)) with (rev_append r [c]).
    rewrite <- (reverse_involutive (b64char <$> vs)), E. reflexivity.
Qed.

Lemma mapM_b64val vs :
  Forall sextet vs -> mapM b64val (b64char <$> vs) = Some vs.
Proof.
  induction 1 as [|v vs Hv _ IH]; [done|].
  rewrite fmap_cons. cbn [mapM]. rewrite b64val_b64char by done.
  cbn. by rewrite IH.
Qed.

Lemma filter_space_encoded vs pad :
  Forall sextet vs ->
  pad = [] \/ pad = [61] \/ pad = [61; 61] ->
  List.filter (fun c => negb (isAsciiSpace c)) ((b64char <$> vs) ++ pad)
  = (b64char <$> vs) ++ pad.
Proof.
  intros Hvs Hpad. rewrite List.filter_app. f_equal.
  - induction Hvs as [|v vs Hv _ IH]; [done|].
    rewrite fmap_cons. cbn [List.filter].
    destruct (b64char_plain v Hv) as [-> _]. cbn [negb]. by rewrite IH.
  - by destruct Hpad as [-> | [-> | ->]].
Qed.

(** Decoding what [btoa] made of bytes gives the bytes back. *)
Lemma atob_btoa bs :
  Forall isByte bs ->
  Ref.btoa bs = Normal (b64encode bs)
  /\ Ref.atob (b64encode bs) = Normal bs.
Proof.
  intros Hb. split.
  - unfold Ref.btoa.
    replace (forallb (fun c => (0 <=? c) && (c <=? 255)) bs) with true; [done|].
    symmetry. apply forallb_forall. intros c Hc%list_elem_of_In.
    rewrite Forall_forall in Hb. specialize (Hb c Hc). unfold isByte in Hb.
    apply andb_true_intro. split; [apply Z.leb_le|apply Z.leb_le]; lia.
  - destruct (b64encode_shape bs Hb)
      as (vs & pad & E & Hvs & Hpad & Hlen & Hvl & Hdec).
    unfold Ref.atob. rewrite E in Hlen |- *.
    rewrite filter_space_encoded, stripPadding_encoded by done.
    rewrite length_fmap.
    destruct (Nat.eqb_spec (length vs mod 4) 1) as [?|_]; [done|].
    by rewrite mapM_b64val, Hdec.
Qed.

End Base64.

(** ** The reference codecs: UTF-8 *)

Section Utf8.
Local Open Scope Z_scope.
Import Ref.

Ltac decide_ifs :=
  repeat match goal with
         | |- context [?a <=? ?b] =>
           destruct (Z.leb_spec a b); try (exfalso; lia)
         | |- context [?a <? ?b] =>
           destruct (Z.ltb_spec a b); try (exfalso; lia)
         | |- context [?a =? ?b] =>
           destruct (Z.eqb_spec a b); try (exfalso; lia)
         end.

Lemma d_run_cons st b r :
  d_run st (b :: r) = (d_step st b).1 ++ d_run (d_step st b).2 r.
Proof. simpl. by destruct (d_step st b). Qed.

Lemma d_step_start st b : d_left st = 0 -> d_step st b = d_start b.
Proof. intros E. unfold d_step. by rewrite E. Qed.

Lemma d_start_1 b : 0 <= b <= 127 -> d_start b = ([b], d_init).
Proof. intros Hb. unfold d_start. by decide_ifs. Qed.

Lemma d_start_2 b :
  194 <= b <= 223 ->
  d_start b =
  ([], {| d_cp := b - 192; d_left := 1; d_lower := 128; d_upper := 191 |}).
Proof. intros Hb. unfold d_start. by decide_ifs. Qed.

Lemma d_start_3 b :
  224 <= b <= 239 ->
  d_start b =
  ([], {| d_cp := b - 224; d_left := 2;
          d_lower := if b =? 224 then 160 else 128;
          d_upper := if b =? 237 then 159 else 191 |}).
Proof.
  intros Hb. unfold d_start.
  destruct (Z.leb_spec b 127); [lia|].
  destruct (Z.leb_spec 194 b); [|lia].
  destruct (Z.leb_spec b 223); [lia|].
  destruct (Z.leb_spec 224 b); [|lia].
  destruct (Z.leb_spec b 239); [|lia]. reflexivity.
Qed.

Lemma d_start_4 b :
  240 <= b <= 244 ->
  d_start b =
  ([], {| d_cp := b - 240; d_left := 3;
          d_lower := if b =? 240 then 144 else 128;
          d_upper := if b =? 244 then 143 else 191 |}).
Proof.
  intros Hb. unfold d_start.
  destruct (Z.leb_spec b 127); [lia|].
  destruct (Z.leb_spec 194 b); [|lia].
  destruct (Z.leb_spec b 223); [lia|].
  destruct (Z.leb_spec 224 b); [|lia].
  destruct (Z.leb_spec b 239); [lia|].
  destruct (Z.leb_spec 240 b); [|lia].
  destruct (Z.leb_spec b 244); [|lia]. reflexivity.
Qed.

Lemma d_step_more cp n lo hi b :
  1 < n -> lo <= b <= hi ->
  d_step {| d_cp := cp; d_left := n; d_lower := lo; d_upper := hi |} b
  = ([], {| d_cp := cp * 64 + (b - 128); d_left := n - 1;
            d_lower := 128; d_upper := 191 |}).
Proof.
  intros Hn Hb. unfold d_step. cbn [d_left d_cp d_lower d_upper].
  by decide_ifs.
Qed.

Lemma d_step_last cp lo hi b :
  lo <= b <= hi ->
  d_step {| d_cp := cp; d_left := 1; d_lower := lo; d_upper := hi |} b
  = ([cp * 64 + (b - 128)], d_init).
Proof.
  intros Hb. unfold d_step. cbn [d_left d_cp d_lower d_upper].
  by decide_ifs.
Qed.

Lemma utf8_parts cp :
  0 <= cp ->
  0 <= cp mod 64 < 64 /\ 0 <= cp / 64 mod 64 < 64
  /\ 0 <= cp / 4096 mod 64 < 64
  /\ cp = cp / 64 * 64 + cp mod 64
  /\ cp / 64 = cp / 4096 * 64 + cp / 64 mod 64
  /\ cp / 4096 = cp / 262144 * 64 + cp / 4096 mod 64.
Proof. intros Hcp. Z.div_mod_to_equations. lia. Qed.

(** The decoder reads the bytes of a scalar value back as that value. *)
Lemma d_run_scalar cp rest :
  scalar cp ->
  d_run d_init (utf8_bytes cp ++ rest) = cp :: d_run d_init rest.
Proof.
  intros Hcp. unfold scalar in Hcp. unfold utf8_bytes.
  destruct (utf8_parts cp ltac:(lia)) as (H0 & H1 & H2 & E0 & E1 & E2).
  assert (cp < 128 -> cp / 64 = 0 \/ cp / 64 = 1) as _ by (intros; lia).
  destruct (Z.ltb_spec cp 128) as [Hlt|Hge]; [|
  destruct (Z.ltb_spec cp 2048) as [Hlt|Hge2]; [|
  destruct (Z.ltb_spec cp 65536) as [Hlt|Hge3]]]; cbn [app].
  - rewrite d_run_cons, d_step_start, d_start_1 by (done || lia). reflexivity.
  - rewrite d_run_cons, d_step_start, d_start_2 by (done || lia). cbn [fst snd app].
    rewrite d_run_cons, d_step_last by lia. cbn [fst snd app].
    f_equal. lia.
  - rewrite d_run_cons, d_step_start, d_start_3 by (done || lia). cbn [fst snd app].
    rewrite d_run_cons, d_step_more.
    + cbn [fst snd app]. rewrite d_run_cons, d_step_last by lia.
      cbn [fst snd app]. f_equal. lia.
    + lia.
    + destruct (Z.eqb_spec (224 + cp / 4096) 224);
        destruct (Z.eqb_spec (224 + cp / 4096) 237); lia.
  - rewrite d_run_cons, d_step_start, d_start_4 by (done || lia). cbn [fst snd app].
    rewrite d_run_cons, d_step_more.
    + cbn [fst snd app]. rewrite d_run_cons, d_step_more by lia.
      cbn [fst snd app]. rewrite d_run_cons, d_step_last by lia.
      cbn [fst snd app]. f_equal.
      assert (0 <= cp / 262144 mod 64 < 64
              /\ cp / 4096 = cp / 262144 * 64 + cp / 4096 mod 64)
        by (Z.div_mod_to_equations; lia).
      lia.
    + lia.
    + destruct (Z.eqb_spec (240 + cp / 262144) 240);
        destruct (Z.eqb_spec (240 + cp / 262144) 244); lia.
Qed.

Lemma utf8_bytes_byte cp : scalar cp -> Forall isByte (utf8_bytes cp).
Proof.
  unfold scalar, isByte, utf8_bytes. intros Hcp.
  destruct (utf8_parts cp ltac:(lia)) as (H0 & H1 & H2 & E0 & E1 & E2).
  assert (0 <= cp / 262144 mod 64 < 64) by (Z.div_mod_to_equations; lia).
  decide_ifs; repeat constructor; lia.
Qed.

Lemma match_65279 {A} (c : Z) (x y : A) :
  c <> 65279 -> match c with 65279 => x | _ => y end = y.
Proof.
  intros Hc. destruct c as [|p|p]; try done.
  do 16 (destruct p as [p|p|]; try done).
Qed.

Lemma codePoints_plain c r :
  isHigh c = false -> isLow c = false ->
  codePoints (c :: r) = Some c :: codePoints r.
Proof. intros Hh Hl. simpl. by rewrite Hh, Hl. Qed.

Lemma codePoints_pair c d r :
  isHigh c = true -> isLow d = true ->
  codePoints (c :: d :: r)
  = Some (65536 + (c - 55296) * 1024 + (d - 56320)) :: codePoints r.
Proof. intros Hh Hl. simpl. by rewrite Hh, Hl. Qed.

(** The three shapes of a well-formed string. *)
Lemma wellFormed_cases s :
  wellFormed s ->
  s = []
  \/ (exists c r, s = c :: r /\ 0 <= c < 65536 /\ isHigh c = false
                  /\ isLow c = false /\ wellFormed r)
  \/ (exists c d r, s = c :: d :: r /\ isHigh c = true /\ isLow d = true
                    /\ wellFormed r).
Proof.
  intros [Hu Hc]. destruct s as [|c r]; [by left|right].
  apply Forall_cons in Hu as [Hc0 Hu]. simpl in Hc.
  destruct (isHigh c) eqn:Hh.
  - right. destruct r as [|d r].
    + apply Forall_inv in Hc. by destruct Hc.
    + destruct (isLow d) eqn:Hl.
      * apply Forall_cons in Hc as [_ Hc]. apply Forall_cons in Hu as [_ Hu].
        by exists c, d, r.
      * apply Forall_inv in Hc. by destruct Hc.
  - left. destruct (isLow c) eqn:Hl.
    + apply Forall_inv in Hc. by destruct Hc.
    + apply Forall_cons in Hc as [_ Hc]. by exists c, r.
Qed.

Lemma plain_scalar c :
  0 <= c < 65536 -> isHigh c = false -> isLow c = false -> scalar c.
Proof.
  unfold isHigh, isLow, scalar. intros Hc Hh Hl.
  destruct (Z.leb_spec 55296 c), (Z.leb_spec c 56319),
    (Z.leb_spec 56320 c), (Z.leb_spec c 57343); try done; lia.
Qed.

Lemma pair_scalar c d :
  isHigh c = true -> isLow d = true ->
  65536 <= 65536 + (c - 55296) * 1024 + (d - 56320) < 1114112
  /\ 0 <= c - 55296 < 1024 /\ 0 <= d - 56320 < 1024.
Proof.
  unfold isHigh, isLow. intros Hh Hl.
  destruct (Z.leb_spec 55296 c), (Z.leb_spec c 56319),
    (Z.leb_spec 56320 d), (Z.leb_spec d 57343); try done; lia.
Qed.

Lemma utf16_units_pair c d :
  isHigh c = true -> isLow d = true ->
  utf16_units (65536 + (c - 55296) * 1024 + (d - 56320)) = [c; d].
Proof.
  intros Hh Hl. destruct (pair_scalar c d Hh Hl) as (Hcp & Hc & Hd).
  unfold utf16_units.
  destruct (Z.ltb_spec (65536 + (c - 55296) * 1024 + (d - 56320)) 65536);
    [lia|].
  f_equal; [|f_equal]; Z.div_mod_to_equations; lia.
Qed.

(** The encoder makes bytes, and the decoder reads them back as the code
    points of the string, which spell the string again. *)
Lemma utf8_round_trip_upto n s :
  (length s <= n)%nat -> wellFormed s ->
  Forall isByte (TextEncoder_encode s)
  /\ Some <$> d_run d_init (TextEncoder_encode s) = codePoints s
  /\ d_run d_init (TextEncoder_encode s) ≫= utf16_units = s.
Proof.
  revert s. induction n as [|n IH]; intros s Hn Hs.
  { destruct s; [|simpl in Hn; lia]. by split_and!. }
  destruct (wellFormed_cases s Hs)
    as [->|[(c & r & -> & Hc & Hh & Hl & Hr)|(c & d & r & -> & Hh & Hl & Hr)]].
  - by split_and!.
  - destruct (IH r ltac:(simpl in Hn; lia) Hr) as (Hb & Hcp & Hu).
    pose proof (plain_scalar c Hc Hh Hl) as Hsc.
    unfold TextEncoder_encode in *. rewrite codePoints_plain by done.
    rewrite bind_cons. change (default 65533 (Some ?x)) with x.
    rewrite d_run_scalar by done. split_and!.
    + apply Forall_app. split; [by apply utf8_bytes_byte|done].
    + rewrite fmap_cons. by rewrite Hcp.
    + rewrite bind_cons, Hu. unfold utf16_units.
      by destruct (Z.ltb_spec c 65536); [|lia].
  - destruct (IH r ltac:(simpl in Hn; lia) Hr) as (Hb & Hcp & Hu).
    destruct (pair_scalar c d Hh Hl) as (Hsc & _ & _).
    assert (scalar (65536 + (c - 55296) * 1024 + (d - 56320)))
      as Hsc' by (unfold scalar; lia).
    unfold TextEncoder_encode in *. rewrite codePoints_pair by done.
    rewrite bind_cons. change (default 65533 (Some ?x)) with x.
    rewrite d_run_scalar by done. split_and!.
    + apply Forall_app. split; [by apply utf8_bytes_byte|done].
    + rewrite fmap_cons. by rewrite Hcp.
    + rewrite bind_cons, Hu. by rewrite utf16_units_pair.
Qed.

(** Decoding the encoding of a well-formed string gives the string back,
    less a leading byte order mark. *)
Lemma TextDecoder_TextEncoder s :
  wellFormed s ->
  Forall isByte (TextEncoder_encode s)
  /\ TextDecoder_decode (TextEncoder_encode s) = dropBOM s.
Proof.
  intros Hs.
  destruct (utf8_round_trip_upto (length s) s ltac:(lia) Hs) as (Hb & Hcp & Hu).
  split; [done|]. unfold TextDecoder_decode.
  destruct (wellFormed_cases s Hs)
    as [->|[(c & r & -> & Hc & Hh & Hl & Hr)|(c & d & r & -> & Hh & Hl & Hr)]].
  - done.
  - rewrite codePoints_plain in Hcp by done.
    destruct (d_run d_init (TextEncoder_encode (c :: r))) as [|cp cps];
      [done|].
    injection Hcp as -> Hcp.
    assert (utf16_units c = [c]) as Ec.
    { unfold utf16_units. by destruct (Z.ltb_spec c 65536); [|lia]. }
    rewrite bind_cons, Ec in Hu. injection Hu as Hu.
    unfold dropBOM. destruct (Z.eq_dec c 65279) as [->|Hne]; [exact Hu|].
    rewrite !match_65279 by done.
    rewrite bind_cons, Ec. cbn [app]. f_equal. exact Hu.
  - rewrite codePoints_pair in Hcp by done.
    destruct (pair_scalar c d Hh Hl) as (Hsc & Hc & _).
    destruct (d_run d_init (TextEncoder_encode (c :: d :: r))) as [|cp cps];
      [done|].
    injection Hcp as -> Hcp.
    unfold dropBOM. rewrite !match_65279 by lia. done.
Qed.

End Utf8.

(** ** The transport encoding on the reference codecs *)

Section Codec.
Variable server : History -> Completion Response.

(** X18. With the codecs of the standards, [toBase64] never throws on a
    well-formed string, and [fromBase64] reads its result back, however
    line feeds are spread over it, as the same string less a leading byte
    order mark. *)
Theorem fromBase64_toBase64 (s : jsstring) :
  wellFormed s ->
  exists b,
    @toBase64 (Ref.platform server) s = Normal b
    /\ forall b64, removeLF b64 = b ->
                   @fromBase64 (Ref.platform server) b64 = Normal (dropBOM s).
Proof.
  intros Hs. destruct (TextDecoder_TextEncoder s Hs) as [Hb Hd].
  destruct (atob_btoa _ Hb) as [Hbtoa Hatob].
  exists (Ref.b64encode (Ref.TextEncoder_encode s)). split.
  - exact Hbtoa.
  - intros b64 E. unfold fromBase64. rewrite E.
    cbn [atob TextDecoder_decode Ref.platform].
    rewrite Hatob. cbn. by rewrite Hd.
Qed.

End Codec.

Lemma fromBase64_toBase64_witness :
  wellFormed (lit "# 你好\n")
  /\ exists b,
      @toBase64 Demo.platform (lit "# 你好\n") = Normal b
      /\ forall b64, removeLF b64 = b ->
                     @fromBase64 Demo.platform b64
                     = Normal (dropBOM (lit "# 你好\n")).
Proof.
  assert (wellFormed (lit "# 你好\n")) as Hs by (unfold wellFormed; compute_done).
  split; [exact Hs|].
  exact (fromBase64_toBase64 (Ref.routed Demo.routes) _ Hs).
Defined.

(** ** Failed reads, and the number of requests of a run *)

Section Budget.
Context `{Platform}.
Implicit Types (token : jsstring) (h : History) (repos : list Repo).

(** X19. A read of the README that fails ends the document updater with an
    error and without a write: an error of the transport is passed on as
    it is; an answer that is neither a success nor 404 becomes an error
    whose message has the status and the body of the answer; and content
    that cannot be decoded passes on the error of the decoder. *)
Theorem updateReadmeForRepo_read_fails token owner repo stampInfo h :
  let get := readmeRequest token owner repo in
  (forall e, remote (h ++ [get]) = Throw e ->
     updateReadmeForRepo token owner repo stampInfo h = (Throw e, h ++ [get]))
  /\ (forall res,
        remote (h ++ [get]) = Normal res ->
        res_status res <> 404%Z -> res_ok res = false ->
        updateReadmeForRepo token owner repo stampInfo h
        = (Throw (Error (lit "获取 README 失败: "
                         ++ String_of_Z (res_status res)
                         ++ lit " " ++ res_text res)), h ++ [get]))
  /\ (forall res data e,
        remote (h ++ [get]) = Normal res ->
        res_ok res = true ->
        res_json res = Normal (JReadme data) ->
        fromBase64 (rd_content data) = Throw e ->
        updateReadmeForRepo token owner repo stampInfo h
        = (Throw e, h ++ [get])).
Proof.
  intros get. subst get. split_and!.
  - intros e Hres. unfold updateReadmeForRepo. by rewrite bind_fetch, Hres.
  - intros res Hres H404 Hok. unfold updateReadmeForRepo.
    rewrite bind_fetch, Hres.
    destruct (Z.eqb_spec (res_status res) 404) as [E404|_]; [done|].
    by rewrite Hok.
  - intros res data e Hres Hok Hj Hdec. unfold updateReadmeForRepo.
    rewrite bind_fetch, Hres.
    destruct (Z.eqb_spec (res_status res) 404) as [E404|_];
      [by apply res_ok_not_404 in Hok|].
    rewrite Hok. cbn [negb]. by rewrite bind_lift, Hj, bind_lift, Hdec.
Qed.

Lemma Visits_request_count token stampInfo repos h summary h' :
  Visits token stampInfo repos h summary h' ->
  exists new, h' = h ++ new
              /\ (length repos <= length new <= 2 * length repos)%nat.
Proof.
  induction 1 as [h|repo repos h c h1 summary h2 Hu _ IH].
  - exists []. by rewrite app_nil_r.
  - destruct IH as (new & -> & Hlen).
    apply updateReadmeForRepo_history in Hu
      as [[-> _]|(res & data & path & body & _ & _ & _ & _ & -> & _)].
    + eexists (_ :: new). split; [by rewrite <- app_assoc|]. simpl. lia.
    + eexists (_ :: _ :: new). split; [by rewrite <- app_assoc|]. simpl. lia.
Qed.

Lemma full_pages_length (full : list (list Repo)) :
  (forall i b, full !! i = Some b -> (perPage <= Z.of_nat (length b))%Z) ->
  (100 * length full <= length (concat full))%nat.
Proof.
  induction full as [|b full IH]; intros Hfull; [done|].
  simpl. rewrite length_app.
  pose proof (Hfull 0%nat b eq_refl) as Hb. unfold perPage in Hb.
  specialize (IH (fun i b' Hi => Hfull (S i) b' Hi)). lia.
Qed.

(** X20. The requests of a run that returns a summary: first the pages 1
    to [k] of the listing, and only then, for each repository of the
    summary, one or two requests; a listing of [k] pages has at least
    [100 * (k - 1)] repositories. *)
Theorem updateAllRepos_budget fuel now token h r h' :
  updateAllRepos fuel now {| GITHUB_TOKEN := Some token |} h
  = Some (Normal r, h') ->
  exists k new,
    (1 <= k <= fuel)%nat
    /\ h' = h ++ pageRequests token k ++ new
    /\ (length (rr_summary r) <= length new <= 2 * length (rr_summary r))%nat
    /\ (100 * (k - 1) <= length (rr_summary r))%nat.
Proof.
  unfold updateAllRepos. cbn [GITHUB_TOKEN].
  destruct (isEmpty token); [done|].
  destruct (fetchAllRepos fuel token h) as [[[repos|e] h1]|] eqn:El;
    [|done|done].
  apply fetchAllRepos_loop_sound in El
    as (full & batch & res & Hfull & _ & _ & _ & -> & -> & Hfuel).
  destruct (forEachRepo_visits token (calcThisWeekStamp now)
              ([] ++ concat full ++ batch) []
              (h ++ (pageRequest token <$> pagesFrom 1 (S (length full)))))
    as (summary & h2 & Ef & V). rewrite Ef.
  intros [= <- <-]. cbn [rr_summary app].
  pose proof (Visits_length _ _ _ _ _ _ V) as Hlen.
  apply Visits_request_count in V as (new & -> & Hnew).
  exists (S (length full)), new. cbn [app] in Hlen, Hnew.
  split; [lia|]. split; [|split; [lia|]].
  - unfold pageRequests. by rewrite <- app_assoc.
  - rewrite Hlen, length_app.
    assert (100 * length full <= length (concat full))%nat.
    { apply full_pages_length. intros i b Hi.
      by destruct (Hfull i b Hi) as (r' & _ & _ & Hb). }
    lia.
Qed.

End Budget.

Lemma updateReadmeForRepo_read_fails_witness :
  @updateReadmeForRepo Demo.platform Demo.token (lit "octo") (lit "delta")
    (calcThisWeekStamp Demo.now) []
  = (Throw Ref.NetworkError,
     [] ++ [readmeRequest Demo.token (lit "octo") (lit "delta")]).
Proof.
  apply (proj1 (@updateReadmeForRepo_read_fails Demo.platform Demo.token
                  (lit "octo") (lit "delta") (calcThisWeekStamp Demo.now) [])).
  by vm_compute.
Defined.

Lemma updateAllRepos_budget_witness :
  exists r h',
    @updateAllRepos Demo.platform 3 Demo.now
      {| GITHUB_TOKEN := Some Demo.token |} [] = Some (Normal r, h')
    /\ exists k new,
        (1 <= k <= 3)%nat
        /\ h' = [] ++ pageRequests Demo.token k ++ new
        /\ (length (rr_summary r) <= length new
            <= 2 * length (rr_summary r))%nat
        /\ (100 * (k - 1) <= length (rr_summary r))%nat.
Proof.
  eexists _, _. split; [vm_compute; reflexivity|].
  apply (@updateAllRepos_budget Demo.platform 3 Demo.now Demo.token []).
  vm_compute. reflexivity.
Defined.
